(** * Buffered video readers (input.py)

    A shallow embedding of [VideoReader], its two subclasses
    [FileVideoReader] and [RemoteFileReader], and the stream adapters they
    read from.  Python objects become records, methods become functions in a
    state-and-exception monad, and the two abstract hooks of [VideoReader]
    ([_open_stream], [_init_total_bytes]) together with the [StreamAdapter]
    interface become type classes. *)

From Stdlib Require Import ZArith List Lia Bool String Ascii Floats.
From Stdlib Require Import Strings.Byte DecimalString.
Import ListNotations.

Local Open Scope string_scope.
Local Open Scope list_scope.
Local Open Scope Z_scope.

(** ** Python values, exceptions and the method monad *)

Definition bytes := list byte.

Inductive exn : Type :=
| StopIteration
| TypeError (msg : string)
| ValueError (msg : string)
| IndexError (msg : string)
| OverflowError (msg : string)
| MemoryError
| OSError (msg : string)
| IsADirectoryError (msg : string)
| PermissionError (msg : string)
| ChunkedEncodingError (msg : string)
| Exception (msg : string)
| SystemExit (code : Z).

Inductive result (A : Type) : Type :=
| Ok (a : A)
| Raise (e : exn).

Arguments Ok {A} a.
Arguments Raise {A} e.

(** A method body: it runs on a state, may change it, and either returns a
    value or raises.  What was changed before a [raise] stays changed, as in
    Python. *)
Definition M (St A : Type) : Type := St -> St * result A.

Definition ret {St A} (a : A) : M St A := fun st => (st, Ok a).

Definition raise {St A} (e : exn) : M St A := fun st => (st, Raise e).

Definition bind {St A B} (m : M St A) (k : A -> M St B) : M St B :=
  fun st =>
    match m st with
    | (st', Ok a) => k a st'
    | (st', Raise e) => (st', Raise e)
    end.

Definition gets {St A} (f : St -> A) : M St A := fun st => (st, Ok (f st)).

Definition modify {St} (f : St -> St) : M St unit := fun st => (f st, Ok tt).

Definition lift_result {St A} (r : result A) : M St A := fun st => (st, r).

Declare Scope py_scope.
Delimit Scope py_scope with py.
Notation "x <- m ;; k" := (bind m (fun x => k))
  (at level 61, m at next level, right associativity) : py_scope.
Notation "m ;;; k" := (bind m (fun _ => k))
  (at level 61, right associativity) : py_scope.
Local Open Scope py_scope.

(** [len(x)] *)
Definition len {A} (l : list A) : Z := Z.of_nat (List.length l).

(** Python slices [l[lo:hi]] with step 1: a negative bound counts from the
    end, and every bound is clamped to [0, len(l)]. *)
Definition slice_index (n i : Z) : Z :=
  if i <? 0 then Z.max (i + n) 0 else Z.min i n.

Definition py_slice {A} (l : list A) (lo : Z) (hi : option Z) : list A :=
  let n := len l in
  let a := slice_index n lo in
  let b := match hi with None => n | Some h => slice_index n h end in
  firstn (Z.to_nat (b - a)) (skipn (Z.to_nat a) l).

(** [range(n)] *)
Definition range (n : Z) : list Z := map Z.of_nat (seq 0 (Z.to_nat n)).

(** [str.startswith] *)
Definition startswith (s p : string) : bool := String.prefix p s.

(** ** Calls on the outside world

    Opening, reading and closing a byte source, and [logging.error], are
    recorded in a log, so that theorems can say which calls a method made. *)
Inductive event : Type :=
| EvOpen (loc : string)
| EvRead (num_of_byte : option Z)
| EvClose
| EvLogError (msg : string).

(** ** class StreamAdapter

    [stream_read None] is the call [read()] without an argument, which
    takes the adapter's own default; [stream_read (Some n)] is [read(n)]. *)
Class StreamAdapter (S : Type) : Type := {
  stream_read : option Z -> S -> S * result bytes;
  stream_close : S -> S
}.

(** *** The object returned by [open(path, 'rb')]

    [read()] and [read(-1)] return everything up to the end of the file;
    [read(n)] returns at most [n] bytes, fewer when the file ends first, and
    never raises at the end of the file.  The checks come in this order: the
    length is converted to a C [ssize_t], which raises [OverflowError] when
    it does not fit; a length below -1 is refused; a closed file is refused;
    then the result is allocated, [n] bytes for [read(n)] whatever the file
    still holds, and the allocation is refused when it is longer than a byte
    string can be or than the allocator gives out.  A refused call leaves
    the position where it was. *)
Record FileObject : Type := mkFile {
  f_data : bytes;
  f_pos : nat;
  f_closed : bool
}.

(** [sys.maxsize] on a 64-bit platform *)
Definition SSIZE_MAX : Z := 2 ^ 63 - 1.

(** The longest byte string there can be: [sys.maxsize] less the header of
    a bytes object. *)
Definition BYTES_MAX : Z := SSIZE_MAX - 33.

(** Allocating a byte string of [n] bytes when the allocator gives out at
    most [room] bytes at once; the empty byte string is never allocated. *)
Definition alloc_bytes (room n : Z) : option exn :=
  if BYTES_MAX <? n then Some (OverflowError "byte string is too large")
  else if (0 <? n) && (room <? n) then Some MemoryError
  else None.

Definition file_read (room : Z) (arg : option Z) (f : FileObject)
  : FileObject * result bytes :=
  let n := match arg with None => -1 | Some n => n end in
  if (n <? - SSIZE_MAX - 1) || (SSIZE_MAX <? n) then
    (f, Raise (OverflowError "cannot fit 'int' into an index-sized integer"))
  else if n <? -1 then
    (f, Raise (ValueError "read length must be non-negative or -1"))
  else if f_closed f then (f, Raise (ValueError "read of closed file"))
  else
    let rest := skipn (f_pos f) (f_data f) in
    match alloc_bytes room (if n =? -1 then len rest else n) with
    | Some e => (f, Raise e)
    | None =>
        let out := if n =? -1 then rest
                   else firstn (Z.to_nat (Z.min n (len rest))) rest in
        (mkFile (f_data f) (f_pos f + List.length out) false, Ok out)
    end.

Definition file_close (f : FileObject) : FileObject :=
  mkFile (f_data f) (f_pos f) true.

Definition FileObject_adapter (room : Z) : StreamAdapter FileObject := {|
  stream_read := file_read room;
  stream_close := file_close
|}.

(** *** class RemoteFileStreamAdapter

    A response delivers the bytes of [body] and then ends: either the
    iteration just stops ([body_end = None]), or the transport raises, for
    instance [ChunkedEncodingError] when fewer bytes arrived than the
    response declared.

    [response.iter_content(chunk_size=1, decode_unicode=False)] hands out the
    body one byte per chunk; [iter] holds the bytes not handed out yet and
    [iter_end] the exception still to come.  An iterator that has raised is
    finished: from then on [next] raises [StopIteration].  Closing the
    response ends the iteration. *)
Record Response : Type := mkResponse {
  status_code : Z;
  headers : list (string * string);
  body : bytes;
  body_end : option exn
}.

Record RemoteFileStreamAdapter : Type := mkRemote {
  response : Response;
  iter : list byte;
  iter_end : option exn
}.

(** [RemoteFileStreamAdapter.__init__] *)
Definition RemoteFileStreamAdapter_init (resp : Response) : RemoteFileStreamAdapter :=
  mkRemote resp (body resp) (body_end resp).

(** What [next] raises when no byte is left. *)
Definition end_exn (ending : option exn) : exn :=
  match ending with
  | Some e => e
  | None => StopIteration
  end.

(** [next(self.iter)] *)
Definition next : M (list byte * option exn) bytes :=
  fun '(it, ending) =>
    match it with
    | [] => (([], None), Raise (end_exn ending))
    | b :: it' => ((it', ending), Ok [b])
    end.

(** [[next(self.iter) for _ in range(num_of_byte)]] *)
Fixpoint next_times (k : nat) : M (list byte * option exn) (list bytes) :=
  match k with
  | O => ret []
  | S k' => c <- next ;; cs <- next_times k' ;; ret (c :: cs)
  end.

(** [list(self.iter)]: it runs the iterator to its end, and raises if the
    end is an exception of the transport. *)
Definition drain : M (list byte * option exn) (list bytes) :=
  fun '(it, ending) =>
    match ending with
    | Some e => (([], None), Raise e)
    | None => (([], None), Ok (map (fun b => [b]) it))
    end.

(** [b''.join(b_list)] *)
Definition join (b_list : list bytes) : bytes := List.concat b_list.

(** [RemoteFileStreamAdapter.read]; without an argument [num_of_byte] is 1. *)
Definition remote_read (arg : option Z) (a : RemoteFileStreamAdapter)
  : RemoteFileStreamAdapter * result bytes :=
  let num_of_byte := match arg with None => 1 | Some n => n end in
  let '((it', ending'), r) :=
    (b_list <- (if num_of_byte >=? 0
                then next_times (Z.to_nat num_of_byte)
                else drain) ;;
     ret (join b_list)) (iter a, iter_end a) in
  (mkRemote (response a) it' ending', r).

(** [RemoteFileStreamAdapter.close] *)
Definition remote_close (a : RemoteFileStreamAdapter) : RemoteFileStreamAdapter :=
  mkRemote (response a) [] None.

#[export] Instance Remote_adapter : StreamAdapter RemoteFileStreamAdapter := {
  stream_read := remote_read;
  stream_close := remote_close
}.

(** ** class VideoReader *)

Definition MAX_BUFFER_LENGTH : Z := 1024 * 1024.

Definition COMMON_VIDEO_EXTENDS : list string :=
  ["asf"; "avi"; "flv"; "mkv"; "mov"; "mp4"; "rm"; "rmvb"].

(** [_buffer] is a [bytearray], or [None] once the reader is closed. *)
Record VideoReader (S : Type) : Type := mkReader {
  video_loc : string;
  max_buffer_length : Z;
  stream : S;
  total_bytes : Z;
  _buffer : option bytes;
  _buffer_pointer : Z
}.

Arguments mkReader {S}.
Arguments video_loc {S}.
Arguments max_buffer_length {S}.
Arguments stream {S}.
Arguments total_bytes {S}.
Arguments _buffer {S}.
Arguments _buffer_pointer {S}.

(** The two methods a subclass has to supply.  [_open_stream] returns the
    object it assigns to [self.stream]; [_init_total_bytes] returns the new
    value of [self.total_bytes], given the stream just opened (the remote
    reader's [self.response] is the response held by that stream) and the
    value set before the call. *)
Class VideoReaderHooks (S : Type) : Type := {
  hooks_adapter :: StreamAdapter S;
  _open_stream : string -> result S;
  _init_total_bytes : string -> S -> Z -> result Z
}.

(** A reader object together with the log of calls made so far. *)
Record session (S : Type) : Type := mkSession {
  self : VideoReader S;
  calls : list event
}.

Arguments mkSession {S}.
Arguments self {S}.
Arguments calls {S}.

Section Methods.

Context {S : Type} {hooks : VideoReaderHooks S}.

Definition set_stream (r : VideoReader S) (s : S) : VideoReader S :=
  mkReader (video_loc r) (max_buffer_length r) s (total_bytes r)
           (_buffer r) (_buffer_pointer r).

Definition set_buffer (r : VideoReader S) (b : option bytes) : VideoReader S :=
  mkReader (video_loc r) (max_buffer_length r) (stream r) (total_bytes r)
           b (_buffer_pointer r).

Definition set_pointer (r : VideoReader S) (p : Z) : VideoReader S :=
  mkReader (video_loc r) (max_buffer_length r) (stream r) (total_bytes r)
           (_buffer r) p.

Definition update (f : VideoReader S -> VideoReader S) : M (session S) unit :=
  modify (fun ss => mkSession (f (self ss)) (calls ss)).

Definition emit {St} (with_event : St -> event -> St) (e : event) : M St unit :=
  modify (fun st => with_event st e).

Definition record (e : event) : M (session S) unit :=
  emit (fun ss e => mkSession (self ss) (calls ss ++ [e])) e.

(** [self.stream.read(...)] *)
Definition call_stream_read (arg : option Z) : M (session S) bytes :=
  record (EvRead arg) ;;;
  fun ss =>
    let '(s', r) := stream_read arg (stream (self ss)) in
    (mkSession (set_stream (self ss) s') (calls ss), r).

(** [self.stream.close()] *)
Definition call_stream_close : M (session S) unit :=
  record EvClose ;;;
  update (fun r => set_stream r (stream_close (stream r))).

(** [self._open_stream()] on an existing reader *)
Definition call_open_stream : M (session S) unit :=
  loc <- gets (fun ss => video_loc (self ss)) ;;
  record (EvOpen loc) ;;;
  s <- lift_result (_open_stream loc) ;;
  update (fun r => set_stream r s).

(** [len(self._buffer)] *)
Definition buffer_len : M (session S) Z :=
  b <- gets (fun ss => _buffer (self ss)) ;;
  match b with
  | Some l => ret (len l)
  | None => raise (TypeError "object of type 'NoneType' has no len()")
  end.

(** [self._buffer += data] *)
Definition buffer_extend (data : bytes) : M (session S) unit :=
  b <- gets (fun ss => _buffer (self ss)) ;;
  match b with
  | Some l => update (fun r => set_buffer r (Some (l ++ data)))
  | None => raise (TypeError "unsupported operand type(s) for +=: 'NoneType' and 'bytes'")
  end.

(** [self._buffer[lo:hi]] *)
Definition buffer_slice (lo : Z) (hi : option Z) : M (session S) bytes :=
  b <- gets (fun ss => _buffer (self ss)) ;;
  match b with
  | Some l => ret (py_slice l lo hi)
  | None => raise (TypeError "'NoneType' object is not subscriptable")
  end.

(** [VideoReader.__init__]: it starts from the log alone and returns the
    new object.  The two [assert]s hold by typing, [stream] being of a type
    with a [StreamAdapter] instance; [logging.debug] is left out. *)
Definition VideoReader_init (video_loc : string) (max_buffer_length : Z)
  : M (list event) (VideoReader S) :=
  emit (fun log e => log ++ [e]) (EvOpen video_loc) ;;;
  s <- lift_result (_open_stream video_loc) ;;
  total <- lift_result (_init_total_bytes video_loc s (-1)) ;;
  ret (mkReader video_loc max_buffer_length s total (Some []) (-1)).

(** [VideoReader._is_buffer_full] *)
Definition _is_buffer_full : M (session S) bool :=
  n <- buffer_len ;;
  cap <- gets (fun ss => max_buffer_length (self ss)) ;;
  ret (n >? cap).

(** [VideoReader.read].  The third test of the [if]/[elif] chain is the
    negation of the second, so it is the final [else] here. *)
Definition read (num_of_byte : Z) : M (session S) bytes :=
  if num_of_byte <? 0 then call_stream_read None
  else
    full <- _is_buffer_full ;;
    if (full : bool) then call_stream_read (Some num_of_byte)
    else
      buffer_len <- buffer_len ;;
      pointer <- gets (fun ss => _buffer_pointer (self ss)) ;;
      if buffer_len =? pointer + 1 then
        data <- call_stream_read (Some num_of_byte) ;;
        buffer_extend data ;;;
        update (fun r => set_pointer r (_buffer_pointer r + num_of_byte)) ;;;
        ret data
      else if buffer_len - (pointer + 1) >=? num_of_byte then
        update (fun r => set_pointer r (_buffer_pointer r + num_of_byte)) ;;;
        pointer' <- gets (fun ss => _buffer_pointer (self ss)) ;;
        buffer_slice (pointer' - num_of_byte + 1) (Some (pointer' + 1))
      else
        data_buffer_part <- buffer_slice (pointer + 1) None ;;
        let remained_not_read_num :=
          num_of_byte - (buffer_len - (pointer + 1)) in
        data_read_part <- call_stream_read (Some remained_not_read_num) ;;
        buffer_extend data_read_part ;;;
        update (fun r => set_pointer r (_buffer_pointer r + num_of_byte)) ;;;
        ret (data_buffer_part ++ data_read_part).

(** [VideoReader.refresh] *)
Definition refresh : M (session S) unit :=
  full <- _is_buffer_full ;;
  (if (full : bool) then
     call_stream_close ;;;
     call_open_stream ;;;
     update (fun r => set_buffer r (Some []))
   else ret tt) ;;;
  update (fun r => set_pointer r (-1)).

(** [VideoReader.close] *)
Definition close : M (session S) unit :=
  call_stream_close ;;;
  update (fun r => set_buffer r None).

End Methods.

(** ** Numbers and strings of the typed reads *)

(** A Python number: [int] or [float] (IEEE binary64). *)
Inductive pynum : Type :=
| PyInt (z : Z)
| PyFloat (f : float).

Definition byte_value (b : byte) : Z := Z.of_N (Byte.to_N b).

(** The unsigned integer with the most significant byte first ... *)
Definition big_endian (b : bytes) : Z :=
  fold_left (fun acc x => acc * 256 + byte_value x) b 0.

(** ... and with the least significant byte first. *)
Definition little_endian (b : bytes) : Z :=
  fold_right (fun x acc => byte_value x + 256 * acc) 0 b.

(** [int.from_bytes(b, byteorder=...)], unsigned *)
Definition int_from_bytes (b : bytes) (byteorder : string) : result Z :=
  if String.eqb byteorder "big" then Ok (big_endian b)
  else if String.eqb byteorder "little" then Ok (little_endian b)
  else Raise (ValueError "byteorder must be either 'little' or 'big'").

(** Conversion of an [int] to a [float]: rounded to nearest even, and an
    [OverflowError] when the integer is out of range. *)
Definition float_of_int (z : Z) : result float :=
  let f := SF2Prim (binary_normalize prec emax z 0 false) in
  if is_infinity f
  then Raise (OverflowError "int too large to convert to float")
  else Ok f.

Definition py_add (x y : pynum) : result pynum :=
  match x, y with
  | PyInt a, PyInt b => Ok (PyInt (a + b))
  | PyFloat a, PyFloat b => Ok (PyFloat (a + b)%float)
  | PyInt a, PyFloat b =>
      match float_of_int a with
      | Ok fa => Ok (PyFloat (fa + b)%float)
      | Raise e => Raise e
      end
  | PyFloat a, PyInt b =>
      match float_of_int b with
      | Ok fb => Ok (PyFloat (a + fb)%float)
      | Raise e => Raise e
      end
  end.

Definition py_mul (x y : pynum) : result pynum :=
  match x, y with
  | PyInt a, PyInt b => Ok (PyInt (a * b))
  | PyFloat a, PyFloat b => Ok (PyFloat (a * b)%float)
  | PyInt a, PyFloat b =>
      match float_of_int a with
      | Ok fa => Ok (PyFloat (fa * b)%float)
      | Raise e => Raise e
      end
  | PyFloat a, PyInt b =>
      match float_of_int b with
      | Ok fb => Ok (PyFloat (a * fb)%float)
      | Raise e => Raise e
      end
  end.

(** [2**e]: an [int] for [e >= 0], the [float] power of two otherwise
    (zero once it underflows). *)
Definition pow2 (e : Z) : pynum :=
  if e <? 0 then PyFloat (Z.ldexp one e) else PyInt (2 ^ e).

(** Binary digits of a positive number, most significant first, in front
    of [acc]. *)
Fixpoint pos_digits (p : positive) (acc : string) : string :=
  match p with
  | xH => String "1" acc
  | xO q => pos_digits q (String "0" acc)
  | xI q => pos_digits q (String "1" acc)
  end.

(** [bin(z)] *)
Definition bin (z : Z) : string :=
  match z with
  | Z0 => "0b0"
  | Zpos p => String.append "0b" (pos_digits p "")
  | Zneg p => String.append "-0b" (pos_digits p "")
  end.

Fixpoint char_in (c : ascii) (chars : string) : bool :=
  match chars with
  | EmptyString => false
  | String d chars' => Ascii.eqb c d || char_in c chars'
  end.

(** [s.lstrip(chars)]: drops leading characters that occur in [chars]. *)
Fixpoint lstrip (s chars : string) : string :=
  match s with
  | EmptyString => EmptyString
  | String c s' => if char_in c chars then lstrip s' chars else s
  end.

Fixpoint zeros (k : nat) : string :=
  match k with
  | O => EmptyString
  | S k' => String "0" (zeros k')
  end.

(** [s.zfill(width)]: pads with ['0'] on the left, after a leading sign. *)
Definition zfill (s : string) (width : Z) : string :=
  let n := Z.of_nat (String.length s) in
  if width <=? n then s
  else
    let pad := zeros (Z.to_nat (width - n)) in
    match s with
    | String c s' =>
        if Ascii.eqb c "+" || Ascii.eqb c "-"
        then String c (String.append pad s')
        else String.append pad s
    | EmptyString => pad
    end.

(** [s[i]] *)
Definition str_index (s : string) (i : Z) : result ascii :=
  let n := Z.of_nat (String.length s) in
  let j := if i <? 0 then i + n else i in
  if (0 <=? j) && (j <? n) then
    match String.get (Z.to_nat j) s with
    | Some c => Ok c
    | None => Raise (IndexError "string index out of range")
    end
  else Raise (IndexError "string index out of range").

(** [float(c)] for a string of one character: a decimal digit, or a
    [ValueError]. *)
Definition float_of_char (c : ascii) : result float :=
  let d := Z.of_N (N_of_ascii c) - 48 in
  if (0 <=? d) && (d <=? 9) then float_of_int d
  else Raise (ValueError "could not convert string to float").

(** One element of the generator in [read_float]:
    [float(after_point_bits[i]) * 2**(-1 - i)] *)
Definition after_point_term (after_point_bits : string) (i : Z) : result pynum :=
  match str_index after_point_bits i with
  | Raise e => Raise e
  | Ok c =>
      match float_of_char c with
      | Raise e => Raise e
      | Ok f => py_mul (PyFloat f) (pow2 (-1 - i))
      end
  end.

(** [sum(term(i) for i in indices)]: starts from the [int] 0 and adds the
    elements in order. *)
Definition py_sum (term : Z -> result pynum) (indices : list Z) : result pynum :=
  fold_left
    (fun acc i =>
       match acc with
       | Raise e => Raise e
       | Ok a =>
           match term i with
           | Raise e => Raise e
           | Ok t => py_add a t
           end
       end)
    indices (Ok (PyInt 0)).

Section TypedReads.

Context {S : Type} {hooks : VideoReaderHooks S}.

(** [VideoReader.read_int] *)
Definition read_int (num_of_byte : Z) (byteorder : string) : M (session S) Z :=
  data <- read num_of_byte ;;
  lift_result (int_from_bytes data byteorder).

(** [VideoReader.read_float] *)
Definition read_float (before_point_num_of_byte after_point_num_of_byte : Z)
    (byteorder : string) : M (session S) pynum :=
  before_data <- read before_point_num_of_byte ;;
  before_point_num <- lift_result (int_from_bytes before_data byteorder) ;;
  after_data <- read after_point_num_of_byte ;;
  after_point_int <- lift_result (int_from_bytes after_data byteorder) ;;
  let after_point_bits :=
    zfill (lstrip (bin after_point_int) "0b") (after_point_num_of_byte * 8) in
  after_point_num <-
    lift_result (py_sum (after_point_term after_point_bits)
                        (range (after_point_num_of_byte * 8))) ;;
  lift_result (py_add (PyInt before_point_num) after_point_num).

End TypedReads.

(** ** class FileVideoReader

    The system the reader runs on: what is at each path, a regular file
    with its contents, readable or not by the process, or a directory with
    the size [stat] reports for it; and the longest byte string its
    allocator gives out at once.  Neither changes while a reader is in
    use. *)
Inductive node : Type :=
| RegularFile (data : bytes) (readable : bool)
| Directory (size : Z).

Record system : Type := mkSystem {
  files : string -> option node;
  alloc_max : Z
}.

(** [os.path.exists] *)
Definition os_path_exists (sys : system) (path : string) : bool :=
  match files sys path with Some _ => true | None => false end.

(** [os.path.getsize] *)
Definition os_path_getsize (sys : system) (path : string) : result Z :=
  match files sys path with
  | Some (RegularFile data _) => Ok (len data)
  | Some (Directory size) => Ok size
  | None => Raise (OSError "No such file or directory")
  end.

(** [open(path, 'rb')] *)
Definition open_rb (sys : system) (path : string) : result FileObject :=
  match files sys path with
  | Some (RegularFile data true) => Ok (mkFile data 0 false)
  | Some (RegularFile _ false) => Raise (PermissionError "Permission denied")
  | Some (Directory _) => Raise (IsADirectoryError "Is a directory")
  | None => Raise (OSError "No such file or directory")
  end.

(** [FileVideoReader._open_stream] and [FileVideoReader._init_total_bytes] *)
#[export] Instance FileVideoReader_hooks (sys : system)
  : VideoReaderHooks FileObject := {
  hooks_adapter := FileObject_adapter (alloc_max sys);
  _open_stream := fun video_loc => open_rb sys video_loc;
  _init_total_bytes := fun video_loc _ _ => os_path_getsize sys video_loc
}.

(** [FileVideoReader.__init__] *)
Definition FileVideoReader_init (sys : system) (video_loc : string)
    (max_buffer_length : Z) : M (list event) (VideoReader FileObject) :=
  let not_exist := raise (Exception ("File " ++ video_loc ++ " not exist.")%string) in
  if negb (os_path_exists sys video_loc) then not_exist
  else
    size <- lift_result (os_path_getsize sys video_loc) ;;
    if negb (size >? 0) then not_exist
    else VideoReader_init (hooks := FileVideoReader_hooks sys)
                          video_loc max_buffer_length.

(** ** class RemoteFileReader *)

Definition FAKE_HEADERS : list (string * string) :=
  [ ("Accept", "text/html,application/xhtml+xml,application/xml;q=0.9,*/*;q=0.8");
    ("Accept-Charset", "UTF-8,*;q=0.5");
    ("Accept-Encoding", "gzip,deflate,sdch");
    ("Accept-Language", "en-US,en;q=0.8");
    ("User-Agent", "Mozilla/5.0 (Windows NT 10.0; WOW64; rv:51.0) Gecko/20100101 Firefox/51.0") ].

(** [requests.get(url, headers=..., stream=True, timeout=10)]: the network
    answers a request with a response or with an exception. *)
Definition network : Type := string -> list (string * string) -> result Response.

(** ['%s' % n] *)
Definition str_of_int (n : Z) : string :=
  DecimalString.NilZero.string_of_int (Z.to_int n).

(** The objects met while evaluating
    [int(self.response.headers.get['Content-Length'])]. *)
Inductive pyobj : Type :=
| PyStr (s : string)
| PyBoundMethod (owner : list (string * string)) (name : string).

(** [self.response.headers.get]: the attribute is the method itself, it is
    not called. *)
Definition headers_get_attr (resp : Response) : pyobj :=
  PyBoundMethod (headers resp) "get".

(** [obj[key]] with a string key: neither a method nor a string can be
    subscripted with one. *)
Definition getitem (obj : pyobj) (key : string) : result pyobj :=
  match obj with
  | PyBoundMethod _ _ => Raise (TypeError "'method' object is not subscriptable")
  | PyStr _ => Raise (TypeError "string indices must be integers")
  end.

(** [int(obj)] *)
Definition py_int (obj : pyobj) : result Z :=
  match obj with
  | PyStr s =>
      match DecimalString.NilZero.int_of_string s with
      | Some d => Ok (Z.of_int d)
      | None => Raise (ValueError "invalid literal for int() with base 10")
      end
  | PyBoundMethod _ _ =>
      Raise (TypeError "int() argument must be a string, a bytes-like object or a real number, not 'method'")
  end.

(** [RemoteFileReader._init_total_bytes]: the bare [except] swallows every
    exception and leaves [total_bytes] as it was. *)
Definition Remote_init_total_bytes (resp : Response) (total_bytes : Z) : Z :=
  match getitem (headers_get_attr resp) "Content-Length" with
  | Raise _ => total_bytes
  | Ok v =>
      match py_int v with
      | Raise _ => total_bytes
      | Ok n => n
      end
  end.

(** [RemoteFileReader._open_stream] *)
Definition Remote_open_stream (net : network) (video_loc : string)
  : result RemoteFileStreamAdapter :=
  match net video_loc FAKE_HEADERS with
  | Raise e => Raise e
  | Ok resp =>
      if negb (status_code resp =? 200) then
        Raise (Exception ("Can not open the remote video, _response status code: "
                          ++ str_of_int (status_code resp))%string)
      else Ok (RemoteFileStreamAdapter_init resp)
  end.

#[export] Instance RemoteFileReader_hooks (net : network)
  : VideoReaderHooks RemoteFileStreamAdapter := {
  _open_stream := Remote_open_stream net;
  _init_total_bytes := fun _ s total => Ok (Remote_init_total_bytes (response s) total)
}.

(** The line feed of the message logged below. *)
Definition newline : string := String (ascii_of_nat 10) EmptyString.

(** [RemoteFileReader.__init__]; [sys.exit(-1)] raises [SystemExit]. *)
Definition RemoteFileReader_init (net : network) (video_loc : string)
    (max_buffer_length : Z) : M (list event) (VideoReader RemoteFileStreamAdapter) :=
  if negb (startswith video_loc "http") && negb (startswith video_loc "ftp") then
    emit (fun log e => log ++ [e])
         (EvLogError ("Add a proper schema to your remote location: " ++ newline ++
                      "https://" ++ video_loc ++ " or" ++ newline ++
                      "http://" ++ video_loc ++ " or" ++ newline ++
                      "ftp://" ++ video_loc)%string) ;;;
    raise (SystemExit (-1))
  else VideoReader_init (hooks := RemoteFileReader_hooks net)
                        video_loc max_buffer_length.

(** ** The [extend] property

    Strings are over the code points below 256. *)

(** [s.split(sep)] for a separator of one character; never empty. *)
Fixpoint split_on (sep : ascii) (s : string) : list string :=
  match s with
  | EmptyString => [EmptyString]
  | String c s' =>
      let fields := split_on sep s' in
      if Ascii.eqb c sep then EmptyString :: fields
      else match fields with
           | f :: sys => String c f :: sys
           | [] => [String c EmptyString]
           end
  end.

(** [c.lower()]: the letters A-Z, and the capital letters of Latin-1. *)
Definition lower_char (c : ascii) : ascii :=
  let n := N_of_ascii c in
  if ((65 <=? n) && (n <=? 90))%N
     || ((192 <=? n) && (n <=? 222) && negb (n =? 215))%N
  then ascii_of_N (n + 32) else c.

(** [s.lower()] *)
Fixpoint lower (s : string) : string :=
  match s with
  | EmptyString => EmptyString
  | String c s' => String (lower_char c) (lower s')
  end.

(** [x in COMMON_VIDEO_EXTENDS] *)
Definition str_in (x : string) (l : list string) : bool :=
  existsb (String.eqb x) l.

(** [VideoReader.extend] *)
Definition extend {S} (r : VideoReader S) : option string :=
  let ext := last (split_on "." (video_loc r)) EmptyString in
  if String.eqb ext EmptyString then None
  else
    let ext := lower ext in
    if str_in ext COMMON_VIDEO_EXTENDS then Some ext else None.

(** * Vocabulary of the statements *)

(** What a call of [self.stream.read] leaves behind when only the stream,
    the buffer, the pointer and the log change. *)
Definition after_stream_read {S : Type} (loc : string) (cap tb : Z)
    (cs : list event) (arg : option Z) (s' : S) (b : bytes) (p : Z)
  : session S :=
  mkSession (mkReader loc cap s' tb (Some b) p) (cs ++ [EvRead arg]).

(** ** What the two byte sources have in common

    [rest s] is what an open source [s] has still to deliver and can
    deliver in portions of any length.  Inside that, [read(n)] returns
    exactly [n] bytes.  Past the end a file returns what is left, or
    refuses the length and stays where it is; the remote adapter raises and
    is empty afterwards. *)

Inductive eof_policy : Type := ReturnsShort | RaisesAtEnd.

(** The answer [r] of a source to [read(n)] for more than the [d] it has
    left, and the source [s'] it leaves. *)
Definition beyond_end {S : Type} (rest : S -> option bytes)
    (policy : eof_policy) (s : S) (d : bytes) (s' : S)
    (r : result bytes) : Prop :=
  match policy with
  | ReturnsShort =>
      (r = Ok d /\ rest s' = Some [] /\ (d = [] -> s' = s))
      \/ ((exists e, r = Raise e) /\ s' = s)
  | RaisesAtEnd => (exists e, r = Raise e) /\ rest s' = Some []
  end.

Class SourceLaws {S : Type} (hooks : VideoReaderHooks S)
    (rest : S -> option bytes) (policy : eof_policy) : Prop := {
  law_open : forall loc s, _open_stream loc = Ok s -> exists d, rest s = Some d;
  law_within : forall s d n,
    rest s = Some d -> 0 <= n <= len d ->
    exists s', stream_read (Some n) s = (s', Ok (firstn (Z.to_nat n) d))
               /\ rest s' = Some (skipn (Z.to_nat n) d);
  law_zero : forall s d, rest s = Some d -> stream_read (Some 0) s = (s, Ok []);
  law_beyond : forall s d n,
    rest s = Some d -> len d < n ->
    exists s' r, stream_read (Some n) s = (s', r)
                 /\ beyond_end rest policy s d s' r;
  law_default : forall s d,
    rest s = Some d ->
    exists s' r d', stream_read None s = (s', r) /\ rest s' = Some d'
                    /\ (d = [] -> d' = [])
                    /\ match r with Ok out => d = out ++ d' | Raise _ => True end
}.

(** The longest [read(n)] a file object answers when the allocator gives
    out [room] bytes at once. *)
Definition read_max (room : Z) : Z := Z.max 0 (Z.min room BYTES_MAX).



Definition remote_rest (a : RemoteFileStreamAdapter) : option bytes :=
  Some (iter a).

(** *** Sources that may refuse a length

    [left s] is what an open source has left, whatever its length.  A
    [read(n)], [n >= 0], goes from [d] left to [d'] left; when it returns
    it returns the bytes between the two, [n] of them, or fewer from a
    source that returns short, is at its end afterwards and was asked for
    no more than [bound]; asked for no more than [bound] at its end, such a
    source returns nothing and does not move. *)
Class EndLaws {S : Type} (hooks : VideoReaderHooks S)
    (left : S -> option bytes) (policy : eof_policy) (bound : Z) : Prop := {
  end_open : forall loc s, _open_stream loc = Ok s -> exists d, left s = Some d;
  end_zero : forall s d, left s = Some d -> stream_read (Some 0) s = (s, Ok []);
  end_read : forall s d n,
    left s = Some d -> 0 <= n ->
    exists s' r d',
      stream_read (Some n) s = (s', r) /\ left s' = Some d'
      /\ (d = [] -> d' = [])
      /\ (d = [] -> policy = ReturnsShort -> n <= bound -> r = Ok [] /\ s' = s)
      /\ match r with
         | Ok out =>
             d = out ++ d'
             /\ (len out = n
                 \/ (policy = ReturnsShort /\ len out < n /\ n <= bound
                     /\ d' = []))
         | Raise _ => True
         end;
  end_default : forall s d,
    left s = Some d ->
    exists s' r d', stream_read None s = (s', r) /\ left s' = Some d'
                    /\ (d = [] -> d' = [])
}.

(** What an open file has left. *)
Definition file_left (f : FileObject) : option bytes :=
  if f_closed f then None else Some (skipn (f_pos f) (f_data f)).

(** ** Invariants *)

(** [0 <= cursor_position + 1 <= len(buffer)], on a reader that is not
    closed. *)
Definition cursor_inv {S : Type} (ss : session S) : Prop :=
  exists buf, _buffer (self ss) = Some buf
              /\ 0 <= _buffer_pointer (self ss) + 1 <= len buf.

(** A source that, asked for [n] bytes, returns [n] bytes or raises. *)
Definition exact_or_fail {S : Type} {hooks : VideoReaderHooks S} : Prop :=
  forall (s s' : S) (n : Z) (out : bytes),
    0 <= n -> stream_read (Some n) s = (s', Ok out) -> len out = n.

(** The states in which [read(0)] is a no-operation: the source is open and
    can be opened again, and the pointer is inside the buffer, or the source
    has returned short, has nothing left, and the pointer is past the buffer
    by no more than the source can be asked for. *)
Definition steady {S : Type} {hooks : VideoReaderHooks S}
    (left : S -> option bytes) (policy : eof_policy) (bound : Z)
    (ss : session S) : Prop :=
  exists buf d s0,
    _buffer (self ss) = Some buf
    /\ left (stream (self ss)) = Some d
    /\ _open_stream (video_loc (self ss)) = Ok s0
    /\ 0 <= _buffer_pointer (self ss) + 1
    /\ (_buffer_pointer (self ss) + 1 <= len buf
        \/ (policy = ReturnsShort /\ d = []
            /\ _buffer_pointer (self ss) + 1 - len buf <= bound)).

(** The pointer is inside the buffer, and the buffer is no longer than the
    capacity (or 0 if the capacity is negative) plus [m]. *)
Definition buffer_bounded {S : Type} (m : Z) (ss : session S) : Prop :=
  exists buf, _buffer (self ss) = Some buf
              /\ 0 <= _buffer_pointer (self ss) + 1 <= len buf
              /\ len buf <= Z.max (max_buffer_length (self ss)) 0 + m.

(** The buffer holds the first bytes of [data], the source is about to
    deliver the rest, the pointer is inside the buffer and the buffer within
    the capacity. *)
Definition coherent {S : Type} (rest : S -> option bytes) (data : bytes)
    (ss : session S) : Prop :=
  exists buf d,
    _buffer (self ss) = Some buf
    /\ data = buf ++ d
    /\ rest (stream (self ss)) = Some d
    /\ 0 <= _buffer_pointer (self ss) + 1 <= len buf
    /\ len buf <= max_buffer_length (self ss).

(** The bytes of [data] from offset [from], [n] of them. *)
Definition window (data : bytes) (from n : Z) : bytes :=
  firstn (Z.to_nat n) (skipn (Z.to_nat from) data).

(** The buffered bytes a [read] can still hand out: those after the
    pointer, and none once the buffer is past the capacity. *)
Definition unread {S : Type} (r : VideoReader S) : bytes :=
  match _buffer r with
  | Some buf =>
      if max_buffer_length r <? len buf then []
      else py_slice buf (_buffer_pointer r + 1) None
  | None => []
  end.


(** ** Histories of a reader *)


Definition total (ns : list Z) : Z := fold_right Z.add 0 ns.

(** The sessions a program can get to: construction, then [read] with a
    length accepted by [allowed], and [refresh].  The typed reads are made
    of calls of [read], so they lead to no other sessions. *)
Inductive reachable_by {S : Type} {hooks : VideoReaderHooks S}
    (allowed : Z -> Prop) (loc : string) (cap : Z) : session S -> Prop :=
| reach_init (log log' : list event) (rd : VideoReader S) :
    VideoReader_init loc cap log = (log', Ok rd) ->
    reachable_by allowed loc cap (mkSession rd log')
| reach_read (ss : session S) (n : Z) :
    reachable_by allowed loc cap ss -> allowed n ->
    reachable_by allowed loc cap (fst (read n ss))
| reach_refresh (ss : session S) :
    reachable_by allowed loc cap ss ->
    reachable_by allowed loc cap (fst (refresh ss)).

Definition reachable {S : Type} {hooks : VideoReaderHooks S}
  : string -> Z -> session S -> Prop :=
  reachable_by (fun _ => True).

(** ** The fixed-point decode, in the words of the specification *)

(** Following the words of the specification: bit [i], most significant
    first, of a field of [width] bits holding [field] ... *)
Definition field_bit (field width i : Z) : bool :=
  Z.testbit field (width - 1 - i).

(** ... contributes [2^(-1-i)], that is the float 1.0 or 0.0 times that
    power of two ... *)
Definition bit_float (b : bool) : float := if b then one else zero.

Definition fraction_term (field width i : Z) : result pynum :=
  py_mul (PyFloat (bit_float (field_bit field width i))) (pow2 (-1 - i)).

(** ... and the result is the integer part plus the sum of the
    contributions. *)
Definition fixed_point (int_part field width : Z) : result pynum :=
  match py_sum (fraction_term field width) (range width) with
  | Ok fraction => py_add (PyInt int_part) fraction
  | Raise e => Raise e
  end.

Definition bit_char (b : bool) : ascii := if b then "1"%char else "0"%char.

(** The [w] low bits of [x], most significant first. *)
Fixpoint bits_msb (w : nat) (x : Z) : string :=
  match w with
  | O => EmptyString
  | S w' => String (bit_char (Z.testbit x (Z.of_nat w'))) (bits_msb w' x)
  end.

(** ** A small world to run the readers in *)

(** A system with a readable file, a directory and a file that is not
    readable, whose allocator gives out 4 GiB at once. *)
Definition sample_sys (data : bytes) : system :=
  mkSystem
    (fun path =>
       if String.eqb path "clip.mp4" then Some (RegularFile data true)
       else if String.eqb path "movies" then Some (Directory 4096)
       else if String.eqb path "locked.mp4" then Some (RegularFile data false)
       else None)
    (2 ^ 32).

Definition sample_net (resp : Response) : network :=
  fun url _ =>
    if String.eqb url "http://host/clip.mp4" then Ok resp
    else Raise (OSError "connection failed").

(** A response that delivers [data] and declares its length. *)
Definition sample_response (data : bytes) : Response :=
  mkResponse 200 [("Content-Length", str_of_int (len data))] data None.

(** A response that declares 1000 bytes and breaks off after [data]. *)
Definition short_response (data : bytes) : Response :=
  mkResponse 200 [("Content-Length", "1000")] data
             (Some (ChunkedEncodingError "Connection broken: IncompleteRead")).

Definition file_hooks (data : bytes) : VideoReaderHooks FileObject :=
  FileVideoReader_hooks (sample_sys data).

Definition remote_hooks (data : bytes) : VideoReaderHooks RemoteFileStreamAdapter :=
  RemoteFileReader_hooks (sample_net (sample_response data)).


Definition four_bytes : bytes := [Byte.x01; Byte.x02; Byte.x03; Byte.x04].

(** The reader [FileVideoReader("clip.mp4", cap)] over a file holding
    [data], as its constructor leaves it. *)
Definition file_session (data : bytes) (cap : Z) : session FileObject :=
  mkSession (mkReader "clip.mp4" cap (mkFile data 0 false) (len data)
                      (Some []) (-1))
            [EvOpen "clip.mp4"].

(** The reader [RemoteFileReader("http://host/clip.mp4", cap)] over the
    response [resp], as its constructor leaves it. *)
Definition session_over (resp : Response) (cap : Z)
  : session RemoteFileStreamAdapter :=
  mkSession (mkReader "http://host/clip.mp4" cap
                      (RemoteFileStreamAdapter_init resp) (-1)
                      (Some []) (-1))
            [EvOpen "http://host/clip.mp4"].

Definition remote_session (data : bytes) (cap : Z)
  : session RemoteFileStreamAdapter :=
  session_over (sample_response data) cap.

(** * Verification *)

(** ** Lists and slices *)

Lemma len_nonneg {A} (l : list A) : 0 <= len l.
Proof. unfold len. lia. Qed.

Lemma len_app {A} (l1 l2 : list A) : len (l1 ++ l2) = len l1 + len l2.
Proof. unfold len. rewrite length_app. lia. Qed.


Lemma len_firstn {A} (l : list A) (n : Z) :
  0 <= n <= len l -> len (firstn (Z.to_nat n) l) = n.
Proof. unfold len. intros H. rewrite length_firstn. lia. Qed.

Lemma len_skipn {A} (l : list A) (n : Z) :
  0 <= n <= len l -> len (skipn (Z.to_nat n) l) = len l - n.
Proof. unfold len. intros H. rewrite length_skipn. lia. Qed.

Lemma firstn_beyond {A} (l : list A) (n : Z) :
  len l <= n -> firstn (Z.to_nat n) l = l.
Proof. unfold len. intros H. apply firstn_all2. lia. Qed.

Lemma firstn_clamp {A} (l : list A) (n : Z) :
  firstn (Z.to_nat (Z.min n (len l))) l = firstn (Z.to_nat n) l.
Proof.
  destruct (Z.le_gt_cases n (len l)).
  - rewrite Z.min_l by assumption. reflexivity.
  - rewrite Z.min_r by lia. unfold len. rewrite Nat2Z.id, firstn_all.
    symmetry. apply firstn_beyond. lia.
Qed.

(** [l[a:b]] for bounds inside the list *)
Lemma py_slice_inside {A} (l : list A) (a b : Z) :
  0 <= a -> a <= b -> b <= len l ->
  py_slice l a (Some b) = firstn (Z.to_nat (b - a)) (skipn (Z.to_nat a) l).
Proof.
  intros Ha Hab Hb. unfold py_slice, slice_index.
  destruct (Z.ltb_spec a 0); [lia|]. destruct (Z.ltb_spec b 0); [lia|].
  rewrite !Z.min_l by lia. reflexivity.
Qed.

(** [l[a:a]] is empty *)
Lemma py_slice_empty {A} (l : list A) (a : Z) : py_slice l a (Some a) = [].
Proof.
  unfold py_slice. rewrite Z.sub_diag. reflexivity.
Qed.

(** [l[a:]] for a bound inside the list *)
Lemma py_slice_from {A} (l : list A) (a : Z) :
  0 <= a <= len l -> py_slice l a None = skipn (Z.to_nat a) l.
Proof.
  intros Ha. unfold py_slice, slice_index.
  destruct (Z.ltb_spec a 0); [lia|]. rewrite Z.min_l by lia.
  apply firstn_all2. fold (len l). unfold len in *.
  rewrite length_skipn. lia.
Qed.

(** [l[a:]] is empty once [a] is at or past the end *)
Lemma py_slice_past {A} (l : list A) (a : Z) :
  len l <= a -> py_slice l a None = [].
Proof.
  intros Ha. pose proof (len_nonneg l). unfold py_slice, slice_index.
  destruct (Z.ltb_spec a 0); [lia|]. rewrite Z.min_r by lia.
  rewrite Z.sub_diag. reflexivity.
Qed.

(** ** The cases of [read], one equation each *)

Section ReadCases.

Context {S : Type} {hooks : VideoReaderHooks S}.

Variables (loc : string) (cap : Z) (s : S) (tb : Z) (buf : bytes) (ptr : Z)
          (cs : list event).

Let ss : session S := mkSession (mkReader loc cap s tb (Some buf) ptr) cs.

Lemma read_negative (n : Z) :
  n < 0 ->
  read n ss =
    (after_stream_read loc cap tb cs None (fst (stream_read None s)) buf ptr,
     snd (stream_read None s)).
Proof.
  intros Hn. unfold read. destruct (Z.ltb_spec n 0); [|lia].
  unfold call_stream_read, bind, record, emit, modify, ss, after_stream_read.
  simpl. destruct (stream_read None s); reflexivity.
Qed.

Lemma read_overflowed (n : Z) :
  0 <= n -> cap < len buf ->
  read n ss =
    (after_stream_read loc cap tb cs (Some n) (fst (stream_read (Some n) s)) buf ptr,
     snd (stream_read (Some n) s)).
Proof.
  intros Hn Hfull. unfold read. destruct (Z.ltb_spec n 0); [lia|]; simpl.
  unfold _is_buffer_full, buffer_len, bind, gets, ret, ss. simpl.
  destruct (Z.gtb_spec (len buf) cap); [|lia]; simpl.
  unfold call_stream_read, bind, record, emit, modify, after_stream_read.
  simpl. destruct (stream_read (Some n) s); reflexivity.
Qed.

Lemma read_frontier (n : Z) :
  0 <= n -> len buf <= cap -> len buf = ptr + 1 ->
  read n ss =
    match stream_read (Some n) s with
    | (s', Ok data) =>
        (after_stream_read loc cap tb cs (Some n) s' (buf ++ data) (ptr + n), Ok data)
    | (s', Raise e) => (after_stream_read loc cap tb cs (Some n) s' buf ptr, Raise e)
    end.
Proof.
  intros Hn Hcap Hfr. unfold read. destruct (Z.ltb_spec n 0); [lia|]; simpl.
  unfold _is_buffer_full, buffer_len, bind, gets, ret, ss. simpl.
  destruct (Z.gtb_spec (len buf) cap); [lia|]; simpl.
  destruct (Z.eqb_spec (len buf) (ptr + 1)); [|lia]; simpl.
  unfold call_stream_read, buffer_extend, update, bind, record, emit, modify,
    gets, ret, after_stream_read.
  simpl. destruct (stream_read (Some n) s) as [s' [data|err]]; reflexivity.
Qed.

Lemma read_buffered (n : Z) :
  0 <= n -> len buf <= cap -> len buf <> ptr + 1 ->
  n <= len buf - (ptr + 1) ->
  read n ss =
    (mkSession (mkReader loc cap s tb (Some buf) (ptr + n)) cs,
     Ok (py_slice buf (ptr + n - n + 1) (Some (ptr + n + 1)))).
Proof.
  intros Hn Hcap Hfr Hin. unfold read. destruct (Z.ltb_spec n 0); [lia|]; simpl.
  unfold _is_buffer_full, buffer_len, bind, gets, ret, ss. simpl.
  destruct (Z.gtb_spec (len buf) cap); [lia|]; simpl.
  destruct (Z.eqb_spec (len buf) (ptr + 1)); [lia|]; simpl.
  destruct (Z.geb_spec (len buf - (ptr + 1)) n); [|lia]; simpl.
  reflexivity.
Qed.

Lemma read_straddling (n : Z) :
  0 <= n -> len buf <= cap -> len buf <> ptr + 1 ->
  len buf - (ptr + 1) < n ->
  read n ss =
    let k := n - (len buf - (ptr + 1)) in
    match stream_read (Some k) s with
    | (s', Ok data) =>
        (after_stream_read loc cap tb cs (Some k) s' (buf ++ data) (ptr + n),
         Ok (py_slice buf (ptr + 1) None ++ data))
    | (s', Raise e) => (after_stream_read loc cap tb cs (Some k) s' buf ptr, Raise e)
    end.
Proof.
  intros Hn Hcap Hfr Hin. unfold read. destruct (Z.ltb_spec n 0); [lia|]; simpl.
  unfold _is_buffer_full, buffer_len, bind, gets, ret, ss. simpl.
  destruct (Z.gtb_spec (len buf) cap); [lia|]; simpl.
  destruct (Z.eqb_spec (len buf) (ptr + 1)); [lia|]; simpl.
  destruct (Z.geb_spec (len buf - (ptr + 1)) n); [lia|]; simpl.
  unfold call_stream_read, buffer_extend, buffer_slice, update, bind, record,
    emit, modify, gets, ret, after_stream_read.
  simpl.
  destruct (stream_read (Some (n - (len buf - (ptr + 1)))) s)
    as [s' [data|err]]; reflexivity.
Qed.

(** [refresh] below the capacity only moves the pointer. *)
Lemma refresh_cheap :
  len buf <= cap ->
  refresh ss = (mkSession (mkReader loc cap s tb (Some buf) (-1)) cs, Ok tt).
Proof.
  intros Hcap. unfold refresh, _is_buffer_full, buffer_len, bind, gets, ret, ss.
  simpl. destruct (Z.gtb_spec (len buf) cap); [lia|]; simpl. reflexivity.
Qed.

(** [refresh] above the capacity closes the stream and opens it again. *)
Lemma refresh_reopen :
  cap < len buf ->
  refresh ss =
    match _open_stream loc with
    | Ok s0 =>
        (mkSession (mkReader loc cap s0 tb (Some []) (-1))
                   (cs ++ [EvClose] ++ [EvOpen loc]), Ok tt)
    | Raise e =>
        (mkSession (mkReader loc cap (stream_close s) tb (Some buf) ptr)
                   (cs ++ [EvClose] ++ [EvOpen loc]), Raise e)
    end.
Proof.
  intros Hcap. unfold refresh, _is_buffer_full, buffer_len, bind, gets, ret, ss.
  simpl. destruct (Z.gtb_spec (len buf) cap); [|lia]; simpl.
  unfold call_stream_close, call_open_stream, update, bind, record, emit,
    modify, gets, lift_result. simpl. rewrite <- app_assoc.
  destruct (_open_stream loc); reflexivity.
Qed.

End ReadCases.

(** ** The two byte sources obey the laws *)

Lemma skipn_past_end {A} (l : list A) (k : nat) :
  skipn (k + List.length (skipn k l)) l = [].
Proof. apply skipn_all2. rewrite length_skipn. lia. Qed.

Lemma read_max_nonneg (room : Z) : 0 <= read_max room.
Proof. unfold read_max. lia. Qed.

Lemma read_max_fits (room : Z) : read_max room <= SSIZE_MAX.
Proof. unfold read_max, BYTES_MAX. assert (0 < SSIZE_MAX) by reflexivity. lia. Qed.

Lemma alloc_bytes_ok (room n : Z) :
  0 <= n <= read_max room -> alloc_bytes room n = None.
Proof.
  intros Hn. unfold alloc_bytes, read_max in *.
  assert (0 < BYTES_MAX) by reflexivity.
  destruct (Z.ltb_spec BYTES_MAX n); [lia|].
  destruct (Z.ltb_spec 0 n); [|reflexivity].
  destruct (Z.ltb_spec room n); [lia|reflexivity].
Qed.

Lemma alloc_bytes_refused (room n : Z) :
  read_max room < n ->
  exists e, alloc_bytes room n = Some e
            /\ (e = MemoryError \/ exists msg, e = OverflowError msg).
Proof.
  intros Hn. unfold alloc_bytes, read_max in *.
  destruct (Z.ltb_spec BYTES_MAX n).
  { eexists. split; [reflexivity|]. right. eexists. reflexivity. }
  destruct (Z.ltb_spec 0 n); [|lia].
  destruct (Z.ltb_spec room n); [|lia].
  eexists. split; [reflexivity|]. left. reflexivity.
Qed.

(** The checks of [file_read] that an open file passes for a length that
    fits a C [ssize_t]. *)
Lemma file_read_checked (room n : Z) (data : bytes) (pos : nat) :
  -1 <= n <= SSIZE_MAX ->
  file_read room (Some n) (mkFile data pos false) =
    match alloc_bytes room (if n =? -1 then len (skipn pos data) else n) with
    | Some e => (mkFile data pos false, Raise e)
    | None =>
        let out := if n =? -1 then skipn pos data
                   else firstn (Z.to_nat n) (skipn pos data) in
        (mkFile data (pos + List.length out) false, Ok out)
    end.
Proof.
  intros Hn. unfold file_read. cbn [f_closed f_data f_pos].
  assert (Hmax : 0 < SSIZE_MAX) by reflexivity.
  destruct (Z.ltb_spec n (- SSIZE_MAX - 1)); [lia|].
  destruct (Z.ltb_spec SSIZE_MAX n); [lia|]. cbn [orb].
  destruct (Z.ltb_spec n (-1)); [lia|]. cbv zeta. rewrite firstn_clamp.
  reflexivity.
Qed.

Lemma file_read_open (room n : Z) (data : bytes) (pos : nat) :
  0 <= n <= read_max room ->
  file_read room (Some n) (mkFile data pos false) =
    (mkFile data (pos + List.length (firstn (Z.to_nat n) (skipn pos data))) false,
     Ok (firstn (Z.to_nat n) (skipn pos data))).
Proof.
  intros Hn. pose proof (read_max_fits room).
  rewrite file_read_checked by lia.
  destruct (Z.eqb_spec n (-1)); [lia|].
  rewrite alloc_bytes_ok by assumption. reflexivity.
Qed.

(** [read()] of an open file. *)
Lemma file_read_default (room : Z) (data : bytes) (pos : nat) :
  file_read room None (mkFile data pos false) =
    match alloc_bytes room (len (skipn pos data)) with
    | Some e => (mkFile data pos false, Raise e)
    | None => (mkFile data (pos + List.length (skipn pos data)) false,
               Ok (skipn pos data))
    end.
Proof.
  change (file_read room None (mkFile data pos false))
    with (file_read room (Some (-1)) (mkFile data pos false)).
  rewrite file_read_checked by (assert (0 < SSIZE_MAX) by reflexivity; lia).
  reflexivity.
Qed.

(** A length the allocator refuses: the call raises and the file object is
    as it was. *)
Lemma file_read_refused (room n : Z) (data : bytes) (pos : nat) :
  read_max room < n ->
  exists e, file_read room (Some n) (mkFile data pos false) =
              (mkFile data pos false, Raise e)
            /\ (e = MemoryError \/ exists msg, e = OverflowError msg).
Proof.
  intros Hn. pose proof (read_max_nonneg room).
  destruct (Z.le_gt_cases n SSIZE_MAX) as [Hfit|Hbig].
  - rewrite file_read_checked by lia. destruct (Z.eqb_spec n (-1)); [lia|].
    destruct (alloc_bytes_refused room n Hn) as (e & -> & He). eauto.
  - unfold file_read. destruct (Z.ltb_spec SSIZE_MAX n); [|lia].
    rewrite orb_true_r. eauto.
Qed.

Lemma open_rb_ok (sys : system) (loc : string) (f : FileObject) :
  open_rb sys loc = Ok f ->
  exists data, f = mkFile data 0 false
               /\ files sys loc = Some (RegularFile data true).
Proof.
  unfold open_rb. destruct (files sys loc) as [[data [|]|sz]|];
    try discriminate.
  intros [= <-]. exists data. split; reflexivity.
Qed.



Lemma file_left_inv (f : FileObject) (d : bytes) :
  file_left f = Some d ->
  f = mkFile (f_data f) (f_pos f) false /\ d = skipn (f_pos f) (f_data f).
Proof.
  destruct f as [data pos [|]]; unfold file_left; cbn [f_closed f_data f_pos];
    [discriminate|].
  intros [= <-]. auto.
Qed.


Lemma skipn_read {A} (l : list A) (pos n : nat) :
  skipn (pos + List.length (firstn n (skipn pos l))) l = skipn n (skipn pos l).
Proof.
  rewrite length_firstn, length_skipn, skipn_skipn.
  destruct (Nat.le_gt_cases n (List.length l - pos)).
  - f_equal. lia.
  - rewrite !skipn_all2 by lia. reflexivity.
Qed.


(** On every system a file is a source that returns short at its end and
    refuses the lengths its allocator does not give out. *)
Lemma File_end (sys : system) :
  EndLaws (FileVideoReader_hooks sys) file_left ReturnsShort
          (read_max (alloc_max sys)).
Proof.
  split.
  - intros loc s. simpl. intros Hopen.
    destruct (open_rb_ok _ _ _ Hopen) as (data & -> & _).
    eexists. reflexivity.
  - intros s d Hl. destruct (file_left_inv _ _ Hl) as (Hs & ->).
    destruct s as [data pos c]. cbn [f_data f_pos] in *. injection Hs as ->.
    pose proof (read_max_nonneg (alloc_max sys)).
    simpl stream_read. rewrite file_read_open by lia. simpl.
    rewrite Nat.add_0_r. reflexivity.
  - intros s d n Hl Hn. destruct (file_left_inv _ _ Hl) as (Hs & ->).
    destruct s as [data pos c]. cbn [f_data f_pos] in *. injection Hs as ->.
    destruct (Z.le_gt_cases n (read_max (alloc_max sys))) as [Hok|Hbig].
    + do 3 eexists. simpl stream_read. rewrite file_read_open by lia.
      split; [reflexivity|]. unfold file_left. cbn [f_closed f_data f_pos].
      rewrite skipn_read. split; [reflexivity|].
      split; [intros ->; apply skipn_nil|]. split.
      * intros -> _ _. rewrite firstn_nil. simpl. rewrite Nat.add_0_r.
        split; reflexivity.
      * split; [symmetry; apply firstn_skipn|].
        destruct (Z.le_gt_cases n (len (skipn pos data))) as [Hin|Hout].
        -- left. apply len_firstn. lia.
        -- right. rewrite firstn_beyond by lia.
           repeat split; try assumption.
           apply skipn_all2. unfold len in Hout. lia.
    + destruct (file_read_refused (alloc_max sys) n data pos Hbig)
        as (e & Hrd & _).
      exists (mkFile data pos false), (Raise e), (skipn pos data).
      simpl stream_read. rewrite Hrd. split; [reflexivity|].
      split; [reflexivity|]. split; [auto|]. split; [intros; lia|exact I].
  - intros s d Hl. destruct (file_left_inv _ _ Hl) as (Hs & ->).
    destruct s as [data pos c]. cbn [f_data f_pos] in *. injection Hs as ->.
    simpl stream_read. rewrite file_read_default.
    destruct (alloc_bytes (alloc_max sys) (len (skipn pos data))).
    + do 3 eexists. split; [reflexivity|]. split; [reflexivity|]. auto.
    + do 3 eexists. split; [reflexivity|]. unfold file_left.
      cbn [f_closed f_data f_pos]. rewrite skipn_past_end.
      split; [reflexivity|]. auto.
Qed.

Lemma join_singletons (l : list byte) : join (map (fun b => [b]) l) = l.
Proof. unfold join. induction l; simpl; congruence. Qed.

Lemma next_times_enough (k : nat) (it : list byte) (ending : option exn) :
  (k <= List.length it)%nat ->
  next_times k (it, ending) =
    ((skipn k it, ending), Ok (map (fun b => [b]) (firstn k it))).
Proof.
  revert it. induction k as [|k IH]; intros it Hk; [reflexivity|].
  destruct it as [|b it]; simpl in Hk; [lia|].
  simpl. unfold bind at 1. simpl. unfold bind at 1.
  rewrite IH by lia. reflexivity.
Qed.

Lemma next_times_exhausted (k : nat) (it : list byte) (ending : option exn) :
  (List.length it < k)%nat ->
  next_times k (it, ending) = (([], None), Raise (end_exn ending)).
Proof.
  revert it. induction k as [|k IH]; intros it Hk; [lia|].
  destruct it as [|b it]; [reflexivity|]. simpl in Hk.
  simpl. unfold bind at 1. simpl. unfold bind at 1.
  rewrite IH by lia. reflexivity.
Qed.

Lemma remote_read_enough (n : Z) (resp : Response) (it : list byte)
    (ending : option exn) :
  0 <= n <= len it ->
  remote_read (Some n) (mkRemote resp it ending) =
    (mkRemote resp (skipn (Z.to_nat n) it) ending, Ok (firstn (Z.to_nat n) it)).
Proof.
  intros Hn. unfold remote_read, bind. simpl.
  destruct (Z.geb_spec n 0); [|lia].
  rewrite next_times_enough by (unfold len in Hn; lia).
  unfold ret. rewrite join_singletons. reflexivity.
Qed.

Lemma remote_read_exhausted (n : Z) (resp : Response) (it : list byte)
    (ending : option exn) :
  len it < n ->
  remote_read (Some n) (mkRemote resp it ending) =
    (mkRemote resp [] None, Raise (end_exn ending)).
Proof.
  intros Hn. pose proof (len_nonneg it). unfold remote_read, bind. simpl.
  destruct (Z.geb_spec n 0); [|lia].
  rewrite next_times_exhausted by (unfold len in *; lia). reflexivity.
Qed.

(** [read()] without a length is [read(1)]. *)
Lemma remote_read_default (a : RemoteFileStreamAdapter) :
  remote_read None a = remote_read (Some 1) a.
Proof. reflexivity. Qed.

(** A negative length drains the iterator. *)
Lemma remote_read_all (n : Z) (resp : Response) (it : list byte)
    (ending : option exn) :
  n < 0 ->
  remote_read (Some n) (mkRemote resp it ending) =
    (mkRemote resp [] None,
     match ending with Some e => Raise e | None => Ok it end).
Proof.
  intros Hn. unfold remote_read, bind. simpl.
  destruct (Z.geb_spec n 0); [lia|]. unfold drain.
  destruct ending; [reflexivity|]. unfold ret. rewrite join_singletons.
  reflexivity.
Qed.

Lemma Remote_laws (net : network) :
  SourceLaws (RemoteFileReader_hooks net) remote_rest RaisesAtEnd.
Proof.
  split.
  - intros loc s _. eexists. reflexivity.
  - intros [resp it ending] d n [= <-] Hn. eexists. simpl.
    rewrite remote_read_enough by lia. split; reflexivity.
  - intros [resp it ending] d _. simpl. rewrite remote_read_enough.
    + reflexivity.
    + pose proof (len_nonneg it). lia.
  - intros [resp it ending] d n [= <-] Hn. do 2 eexists. simpl stream_read.
    rewrite remote_read_exhausted by lia.
    split; [reflexivity|]. split; [eexists|]; reflexivity.
  - intros [resp it ending] d [= <-]. simpl stream_read.
    rewrite remote_read_default. destruct it as [|b it].
    + rewrite remote_read_exhausted by (unfold len; simpl; lia).
      do 3 eexists. split; [reflexivity|]. split; [reflexivity|].
      split; [reflexivity|exact I].
    + rewrite remote_read_enough
        by (unfold len; cbn [List.length]; lia).
      do 3 eexists. split; [reflexivity|]. split; [reflexivity|].
      split; [discriminate|reflexivity].
Qed.

Lemma Remote_end (net : network) :
  EndLaws (RemoteFileReader_hooks net) remote_rest RaisesAtEnd 0.
Proof.
  split.
  - intros loc s _. eexists. reflexivity.
  - intros [resp it ending] d _. simpl. rewrite remote_read_enough.
    + reflexivity.
    + pose proof (len_nonneg it). lia.
  - intros [resp it ending] d n [= <-] Hn. simpl stream_read.
    destruct (Z.le_gt_cases n (len it)) as [Hin|Hout].
    + rewrite remote_read_enough by lia. do 3 eexists.
      split; [reflexivity|]. split; [reflexivity|].
      split; [intros ->; apply skipn_nil|]. split; [discriminate|].
      split; [symmetry; apply firstn_skipn|]. left. apply len_firstn. lia.
    + rewrite remote_read_exhausted by lia. do 3 eexists.
      split; [reflexivity|]. split; [reflexivity|].
      split; [reflexivity|]. split; [discriminate|exact I].
  - intros [resp it ending] d [= <-]. simpl stream_read.
    rewrite remote_read_default. destruct it as [|b it].
    + rewrite remote_read_exhausted by (unfold len; simpl; lia).
      do 3 eexists. split; [reflexivity|]. split; reflexivity.
    + rewrite remote_read_enough
        by (unfold len; cbn [List.length]; lia).
      do 3 eexists. split; [reflexivity|]. split; [reflexivity|discriminate].
Qed.

(** ** The cursor invariant *)

Section Cursor.

Context {S : Type} {hooks : VideoReaderHooks S}.

Lemma cursor_inv_init (loc : string) (cap : Z) (log log' : list event)
    (rd : VideoReader S) :
  VideoReader_init loc cap log = (log', Ok rd) -> cursor_inv (mkSession rd log').
Proof.
  unfold VideoReader_init, bind, emit, modify, lift_result, ret. simpl.
  destruct (_open_stream loc) as [s0|]; [|discriminate].
  destruct (_init_total_bytes loc s0 (-1)); [|discriminate].
  intros [= <- <-]. exists []. simpl. split; [reflexivity|]. unfold len. simpl. lia.
Qed.

Lemma cursor_inv_read (ss : session S) (n : Z) :
  exact_or_fail -> cursor_inv ss -> cursor_inv (fst (read n ss)).
Proof.
  intros Hex (buf & Hb & Hp).
  destruct ss as [[loc cap s tb b ptr] cs]. simpl in Hb, Hp. subst b.
  destruct (Z.lt_ge_cases n 0) as [Hn|Hn].
  { rewrite read_negative by assumption. exists buf.
    unfold after_stream_read. simpl. auto. }
  destruct (Z.lt_ge_cases cap (len buf)) as [Hfull|Hfull].
  { rewrite read_overflowed by assumption. exists buf.
    unfold after_stream_read. simpl. auto. }
  destruct (Z.eq_dec (len buf) (ptr + 1)) as [Hfr|Hfr].
  { rewrite read_frontier by lia.
    destruct (stream_read (Some n) s) as [s' [data|err]] eqn:Hrd;
      unfold after_stream_read; simpl.
    - exists (buf ++ data). split; [reflexivity|]. simpl.
      rewrite len_app, (Hex _ _ _ _ Hn Hrd). lia.
    - exists buf. auto. }
  destruct (Z.le_gt_cases n (len buf - (ptr + 1))) as [Hin|Hin].
  { rewrite read_buffered by lia. exists buf. simpl.
    split; [reflexivity|lia]. }
  rewrite read_straddling by lia. cbv zeta.
  destruct (stream_read (Some (n - (len buf - (ptr + 1)))) s)
    as [s' [data|err]] eqn:Hrd;
      unfold after_stream_read; simpl.
  - exists (buf ++ data). split; [reflexivity|]. simpl.
    assert (Hk : 0 <= n - (len buf - (ptr + 1))) by lia.
    rewrite len_app, (Hex _ _ _ _ Hk Hrd). lia.
  - exists buf. auto.
Qed.

Lemma cursor_inv_refresh (ss : session S) :
  cursor_inv ss -> cursor_inv (fst (refresh ss)).
Proof.
  intros (buf & Hb & Hp).
  destruct ss as [[loc cap s tb b ptr] cs]. simpl in Hb, Hp. subst b.
  destruct (Z.lt_ge_cases cap (len buf)) as [Hfull|Hfull].
  - rewrite refresh_reopen by assumption.
    destruct (_open_stream loc); simpl.
    + exists []. split; [reflexivity|]. unfold len. simpl. lia.
    + exists buf. auto.
  - rewrite refresh_cheap by assumption. exists buf. simpl.
    pose proof (len_nonneg buf). split; [reflexivity|lia].
Qed.

End Cursor.

(** ** Readers over a lawful source *)

Section Lawful.

Context {S : Type} {hooks : VideoReaderHooks S}
        {rest : S -> option bytes} {policy : eof_policy}
        {laws : SourceLaws hooks rest policy}.


End Lawful.

(** ** Readers over a source that may refuse a length *)

Section Steady.

Context {S : Type} {hooks : VideoReaderHooks S}
        {left : S -> option bytes} {policy : eof_policy} {bound : Z}
        {laws : EndLaws hooks left policy bound}.

Lemma steady_init (loc : string) (cap : Z) (log log' : list event)
    (rd : VideoReader S) :
  VideoReader_init loc cap log = (log', Ok rd) ->
  steady left policy bound (mkSession rd log').
Proof.
  unfold VideoReader_init, bind, emit, modify, lift_result, ret. simpl.
  destruct (_open_stream loc) as [s0|] eqn:Hopen; [|discriminate].
  destruct (_init_total_bytes loc s0 (-1)); [|discriminate].
  intros [= <- <-]. destruct (end_open loc s0 Hopen) as [d Hd].
  exists [], d, s0. simpl. repeat split; try assumption; try lia.
  left. unfold len. simpl. lia.
Qed.

Lemma steady_read (ss : session S) (n : Z) :
  steady left policy bound ss -> steady left policy bound (fst (read n ss)).
Proof.
  intros (buf & d & s0 & Hb & Hr & Ho & Hp & Hq).
  destruct ss as [[loc cap s tb b ptr] cs]. simpl in Hb, Hr, Ho, Hp, Hq. subst b.
  pose proof (len_nonneg buf) as Hbuf.
  destruct (Z.lt_ge_cases n 0) as [Hn|Hn].
  { rewrite read_negative by assumption.
    destruct (end_default s d Hr) as (s' & r & d' & Hrd & Hr' & He).
    rewrite Hrd. unfold after_stream_read. exists buf, d', s0. simpl.
    repeat split; try assumption.
    destruct Hq as [Hq|(Hq & -> & Hgap)]; [left; assumption|right].
    split; [assumption|]. split; [apply He; reflexivity|assumption]. }
  destruct (Z.lt_ge_cases cap (len buf)) as [Hfull|Hfull].
  { rewrite read_overflowed by assumption.
    destruct (end_read s d n Hr Hn)
      as (s' & r & d' & Hrd & Hr' & He & _).
    rewrite Hrd. unfold after_stream_read. exists buf, d', s0. simpl.
    repeat split; try assumption.
    destruct Hq as [Hq|(Hq & -> & Hgap)]; [left; assumption|right].
    split; [assumption|]. split; [apply He; reflexivity|assumption]. }
  destruct (Z.eq_dec (len buf) (ptr + 1)) as [Hfr|Hfr].
  { rewrite read_frontier by lia.
    destruct (end_read s d n Hr Hn)
      as (s' & r & d' & Hrd & Hr' & He & _ & Hout).
    rewrite Hrd. unfold after_stream_read. destruct r as [out|err].
    - exists (buf ++ out), d', s0. simpl. rewrite len_app.
      pose proof (len_nonneg out).
      repeat split; try assumption; try lia.
      destruct Hout as [_ [Hlen|(Hpol & _ & Hfit & Hd')]]; [left; lia|right].
      repeat split; try assumption; lia.
    - exists buf, d', s0. simpl. repeat split; try assumption. left. lia. }
  destruct (Z.le_gt_cases n (len buf - (ptr + 1))) as [Hin|Hin].
  { rewrite read_buffered by lia. exists buf, d, s0. simpl.
    repeat split; try assumption; lia. }
  rewrite read_straddling by lia. cbv zeta.
  assert (Hk : 0 <= n - (len buf - (ptr + 1))) by lia.
  destruct (end_read s d _ Hr Hk)
    as (s' & r & d' & Hrd & Hr' & He & _ & Hout).
  rewrite Hrd. unfold after_stream_read. destruct r as [out|err].
  - exists (buf ++ out), d', s0. simpl. rewrite len_app.
    pose proof (len_nonneg out).
    repeat split; try assumption; try lia.
    destruct Hout as [_ [Hlen|(Hpol & _ & Hfit & Hd')]]; [left; lia|right].
    repeat split; try assumption; lia.
  - exists buf, d', s0. simpl. repeat split; try assumption.
    destruct Hq as [Hq|(Hq & -> & Hgap)]; [left; assumption|right].
    split; [assumption|]. split; [apply He; reflexivity|assumption].
Qed.

Lemma steady_refresh (ss : session S) :
  steady left policy bound ss -> steady left policy bound (fst (refresh ss)).
Proof.
  intros (buf & d & s0 & Hb & Hr & Ho & Hp & Hq).
  destruct ss as [[loc cap s tb b ptr] cs]. simpl in Hb, Hr, Ho, Hp, Hq. subst b.
  pose proof (len_nonneg buf).
  destruct (Z.lt_ge_cases cap (len buf)) as [Hfull|Hfull].
  - rewrite refresh_reopen by assumption. rewrite Ho.
    destruct (end_open loc s0 Ho) as [d0 Hd0].
    exists [], d0, s0. simpl. repeat split; try assumption; try lia.
    left. unfold len. simpl. lia.
  - rewrite refresh_cheap by assumption. exists buf, d, s0. simpl.
    repeat split; try assumption; lia.
Qed.

(** [read(0)] in a steady state returns no bytes and leaves the reader,
    the position of its source included, as it was. *)
Lemma steady_read_zero (ss : session S) :
  steady left policy bound ss ->
  snd (read 0 ss) = Ok [] /\ self (fst (read 0 ss)) = self ss.
Proof.
  intros (buf & d & s0 & Hb & Hr & Ho & Hp & Hq).
  destruct ss as [[loc cap s tb b ptr] cs]. simpl in Hb, Hr, Ho, Hp, Hq. subst b.
  pose proof (end_zero s d Hr) as Hz.
  destruct (Z.lt_ge_cases cap (len buf)) as [Hfull|Hfull].
  { rewrite read_overflowed by lia. rewrite Hz. split; reflexivity. }
  destruct (Z.eq_dec (len buf) (ptr + 1)) as [Hfr|Hfr].
  { rewrite read_frontier by lia. rewrite Hz. unfold after_stream_read. simpl.
    rewrite app_nil_r, Z.add_0_r. split; reflexivity. }
  destruct (Z.le_gt_cases 0 (len buf - (ptr + 1))) as [Hin|Hin].
  { rewrite read_buffered by lia. simpl.
    replace (ptr + 0 - 0 + 1) with (ptr + 0 + 1) by lia.
    rewrite py_slice_empty, Z.add_0_r. split; reflexivity. }
  destruct Hq as [Hq|(Hq & -> & Hgap)]; [lia|].
  rewrite read_straddling by lia. cbv zeta.
  assert (Hk : 0 <= 0 - (len buf - (ptr + 1))) by lia.
  destruct (end_read s [] _ Hr Hk)
    as (s' & r & d' & Hrd & _ & _ & Hsame & _).
  destruct (Hsame eq_refl Hq ltac:(lia)) as [-> ->]. rewrite Hrd.
  unfold after_stream_read. simpl.
  rewrite py_slice_past by lia. rewrite !app_nil_r, Z.add_0_r.
  split; reflexivity.
Qed.

Lemma reachable_steady (loc : string) (cap : Z) (ss : session S) :
  reachable loc cap ss -> steady left policy bound ss.
Proof.
  induction 1 as [log log' rd Hinit|ss n _ IH _|ss _ IH].
  - eapply steady_init; eassumption.
  - apply steady_read; assumption.
  - apply steady_refresh; assumption.
Qed.

End Steady.

(** ** Histories of a reader *)


Lemma window_app {A} (a n : nat) (buf d : list A) :
  (a <= List.length buf)%nat ->
  firstn n (skipn a (buf ++ d)) =
    firstn n (skipn a buf) ++ firstn (n - (List.length buf - a)) d.
Proof.
  intros Ha. rewrite skipn_app.
  replace (a - List.length buf)%nat with 0%nat by lia. simpl skipn at 2.
  rewrite firstn_app, length_skipn. reflexivity.
Qed.

Section Coherence.

Context {S : Type} {hooks : VideoReaderHooks S}
        {rest : S -> option bytes} {policy : eof_policy}
        {laws : SourceLaws hooks rest policy}.

Lemma read_coherent (data : bytes) (ss : session S) (n : Z) :
  coherent rest data ss -> 0 <= n ->
  _buffer_pointer (self ss) + 1 + n <= len data ->
  _buffer_pointer (self ss) + 1 + n <= max_buffer_length (self ss) ->
  exists ss',
    read n ss = (ss', Ok (window data (_buffer_pointer (self ss) + 1) n))
    /\ coherent rest data ss'
    /\ _buffer_pointer (self ss') = _buffer_pointer (self ss) + n
    /\ max_buffer_length (self ss') = max_buffer_length (self ss).
Proof.
  intros (buf & d & Hb & Hdata & Hr & Hp & Hcap) Hn Hend Hroom.
  destruct ss as [[loc cap s tb b ptr] cs].
  simpl in Hb, Hr, Hp, Hcap, Hend, Hroom. subst b. simpl.
  subst data. rewrite len_app in Hend. unfold window.
  rewrite window_app by (unfold len in Hp; lia).
  destruct (Z.eq_dec (len buf) (ptr + 1)) as [Hfr|Hfr].
  { rewrite read_frontier by lia.
    assert (Hk : 0 <= n <= len d) by lia.
    destruct (law_within s d n Hr Hk) as (s' & Hrd & Hr').
    rewrite Hrd. eexists. split.
    { apply f_equal2; [reflexivity|]. f_equal.
      rewrite skipn_all2 by (unfold len in Hfr; lia).
      rewrite firstn_nil. simpl. f_equal. unfold len in Hfr. lia. }
    split; [|split; reflexivity].
    exists (buf ++ firstn (Z.to_nat n) d), (skipn (Z.to_nat n) d).
    unfold after_stream_read. simpl. rewrite len_app, len_firstn by lia.
    repeat split; try assumption; try lia.
    rewrite <- app_assoc, firstn_skipn. reflexivity. }
  destruct (Z.le_gt_cases n (len buf - (ptr + 1))) as [Hin|Hin].
  { rewrite read_buffered by lia. eexists. split.
    { apply f_equal2; [reflexivity|]. f_equal.
      replace (ptr + n - n + 1) with (ptr + 1) by lia.
      rewrite py_slice_inside by lia.
      replace (ptr + n + 1 - (ptr + 1)) with n by lia.
      replace (Z.to_nat n - (List.length buf - Z.to_nat (ptr + 1)))%nat
        with 0%nat by (unfold len in Hin; lia).
      simpl. rewrite app_nil_r. reflexivity. }
    split; [|split; reflexivity].
    exists buf, d. simpl. repeat split; try assumption; lia. }
  rewrite read_straddling by lia. cbv zeta.
  assert (Hk : 0 <= n - (len buf - (ptr + 1)) <= len d) by lia.
  destruct (law_within s d (n - (len buf - (ptr + 1))) Hr Hk)
    as (s' & Hrd & Hr').
  rewrite Hrd. eexists. split.
  { apply f_equal2; [reflexivity|]. f_equal. rewrite py_slice_from by lia.
    rewrite (@firstn_all2 _ (Z.to_nat n) (skipn (Z.to_nat (ptr + 1)) buf))
      by (rewrite length_skipn; unfold len in Hin; lia).
    f_equal. f_equal. unfold len in *. lia. }
  split; [|split; reflexivity].
  exists (buf ++ firstn (Z.to_nat (n - (len buf - (ptr + 1)))) d),
         (skipn (Z.to_nat (n - (len buf - (ptr + 1)))) d).
  unfold after_stream_read. simpl. rewrite len_app, len_firstn by lia.
  repeat split; try assumption; try lia.
  rewrite <- app_assoc, firstn_skipn. reflexivity.
Qed.




End Coherence.

Lemma file_session_init (data : bytes) (cap : Z) :
  data <> [] ->
  FileVideoReader_init (sample_sys data) "clip.mp4" cap [] =
    (calls (file_session data cap), Ok (self (file_session data cap))).
Proof.
  intros Hd. destruct data as [|b data]; [congruence|]. reflexivity.
Qed.



Lemma remote_session_init (data : bytes) (cap : Z) :
  RemoteFileReader_init (sample_net (sample_response data))
                        "http://host/clip.mp4" cap [] =
    (calls (remote_session data cap), Ok (self (remote_session data cap))).
Proof. reflexivity. Qed.

(** A subclass constructor that succeeds has gone through
    [VideoReader.__init__]. *)
Lemma FileVideoReader_init_base (sys : system) (loc : string) (cap : Z)
    (log log' : list event) (rd : VideoReader FileObject) :
  FileVideoReader_init sys loc cap log = (log', Ok rd) ->
  VideoReader_init (hooks := FileVideoReader_hooks sys) loc cap log = (log', Ok rd).
Proof.
  unfold FileVideoReader_init. destruct (os_path_exists sys loc); simpl.
  - unfold bind at 1, lift_result.
    destruct (os_path_getsize sys loc) as [size|]; [|discriminate].
    destruct (size >? 0); simpl; [auto|discriminate].
  - discriminate.
Qed.

Lemma RemoteFileReader_init_base (net : network) (loc : string) (cap : Z)
    (log log' : list event) (rd : VideoReader RemoteFileStreamAdapter) :
  RemoteFileReader_init net loc cap log = (log', Ok rd) ->
  VideoReader_init (hooks := RemoteFileReader_hooks net) loc cap log = (log', Ok rd).
Proof.
  unfold RemoteFileReader_init.
  destruct (negb (startswith loc "http") && negb (startswith loc "ftp"));
    [discriminate|auto].
Qed.

(** * Properties stated by the specification *)




(** C2 (the code at the failing input).  A remote reader over the body
    0a 14 1e: after [read(-1)], [read(2)] and [refresh()], [read(2)] returns
    14 1e, while [read(2)] right after construction returns 0a 14.  A file
    reader over 01 02 03 04: after [read(-1)] has returned the four bytes
    and [refresh()], [read(2)] returns no bytes at all. *)
Theorem refresh_after_negative_read :
  snd ((read (hooks := remote_hooks [Byte.x0a; Byte.x14; Byte.x1e]) (-1) ;;;
        read (hooks := remote_hooks [Byte.x0a; Byte.x14; Byte.x1e]) 2 ;;;
        refresh (hooks := remote_hooks [Byte.x0a; Byte.x14; Byte.x1e]) ;;;
        read (hooks := remote_hooks [Byte.x0a; Byte.x14; Byte.x1e]) 2)
         (remote_session [Byte.x0a; Byte.x14; Byte.x1e] 8))
    = Ok [Byte.x14; Byte.x1e]
  /\ snd (read (hooks := remote_hooks [Byte.x0a; Byte.x14; Byte.x1e]) 2
               (remote_session [Byte.x0a; Byte.x14; Byte.x1e] 8))
     = Ok [Byte.x0a; Byte.x14]
  /\ snd ((read (hooks := file_hooks four_bytes) (-1) ;;;
           refresh (hooks := file_hooks four_bytes) ;;;
           read (hooks := file_hooks four_bytes) 2)
            (file_session four_bytes 8))
     = Ok []
  /\ snd (read (hooks := file_hooks four_bytes) 2 (file_session four_bytes 8))
     = Ok [Byte.x01; Byte.x02].
Proof. repeat split; reflexivity. Qed.




(** C4 (the code at the failing input).  For [n < 0], [read(n)] returns
    what [self.stream.read()] returns and looks at neither the buffer nor
    the pointer.  So after [read(2)] and [refresh()] on a file holding
    01 02 03 04, [read(-1)] returns 03 04 and not the four bytes; and on a
    remote reader over 0a 14 1e, [read(-1)] returns the single byte 0a, the
    adapter's [read()] taking its default length 1. *)
Theorem read_negative_bypasses_buffer :
  (forall (S : Type) (hooks : VideoReaderHooks S) (ss : session S) (n : Z),
      n < 0 ->
      snd (read n ss) = snd (stream_read None (stream (self ss)))
      /\ _buffer (self (fst (read n ss))) = _buffer (self ss)
      /\ _buffer_pointer (self (fst (read n ss))) = _buffer_pointer (self ss))
  /\ snd ((read (hooks := file_hooks four_bytes) 2 ;;;
           refresh (hooks := file_hooks four_bytes) ;;;
           read (hooks := file_hooks four_bytes) (-1))
            (file_session four_bytes 8))
     = Ok [Byte.x03; Byte.x04]
  /\ read (hooks := remote_hooks [Byte.x0a; Byte.x14; Byte.x1e]) (-1)
          (remote_session [Byte.x0a; Byte.x14; Byte.x1e] 8)
     = (mkSession
          (mkReader "http://host/clip.mp4" 8
             (mkRemote (sample_response [Byte.x0a; Byte.x14; Byte.x1e])
                       [Byte.x14; Byte.x1e] None)
             (-1) (Some []) (-1))
          [EvOpen "http://host/clip.mp4"; EvRead None],
        Ok [Byte.x0a]).
Proof.
  split; [|split; reflexivity].
  intros S hooks ss n Hn. unfold read. destruct (Z.ltb_spec n 0); [|lia].
  unfold call_stream_read, bind, record, emit, modify. simpl.
  destruct (stream_read None (stream (self ss))). simpl. auto.
Qed.

(** A [read(n)] that wants more than the unread buffered bytes asks the
    source for the difference and returns the buffered bytes followed by
    what the source gave. *)
Lemma read_asks_source {S : Type} {hooks : VideoReaderHooks S}
    (ss : session S) (buf : bytes) (n : Z) :
  _buffer (self ss) = Some buf ->
  0 <= _buffer_pointer (self ss) + 1 <= len buf ->
  len (unread (self ss)) < n ->
  snd (read n ss) =
    match snd (stream_read (Some (n - len (unread (self ss))))
                           (stream (self ss))) with
    | Ok out => Ok (unread (self ss) ++ out)
    | Raise e => Raise e
    end.
Proof.
  intros Hb Hp Hless.
  destruct ss as [[loc cap s tb b ptr] cs]. unfold unread in *.
  cbn [self _buffer _buffer_pointer max_buffer_length stream] in *. subst b.
  destruct (Z.ltb_spec cap (len buf)) as [Hfull|Hfull].
  { change (len (@nil byte)) with 0 in *. rewrite Z.sub_0_r.
    rewrite read_overflowed by lia. cbn [snd].
    destruct (snd (stream_read (Some n) s)); reflexivity. }
  rewrite py_slice_from in * by lia. rewrite len_skipn in * by lia.
  destruct (Z.eq_dec (len buf) (ptr + 1)) as [Hfr|Hfr].
  { rewrite read_frontier by lia.
    replace (n - (len buf - (ptr + 1))) with n by lia.
    rewrite skipn_all2 by (unfold len in Hfr; lia).
    destruct (stream_read (Some n) s) as [s' [out|err]]; reflexivity. }
  rewrite read_straddling by lia. cbv zeta. rewrite py_slice_from by lia.
  destruct (stream_read (Some (n - (len buf - (ptr + 1)))) s)
    as [s' [out|err]]; reflexivity.
Qed.

Lemma alloc_bytes_none (room n : Z) :
  0 <= n -> alloc_bytes room n = None -> n <= read_max room.
Proof.
  intros Hn Hnone. destruct (Z.le_gt_cases n (read_max room)); [assumption|].
  destruct (alloc_bytes_refused room n) as (e & He & _); [assumption|].
  congruence.
Qed.

(** What it takes for [read(n)] of a file object to return. *)
Lemma file_read_returns (room n : Z) (f f' : FileObject) (out : bytes) :
  0 <= n -> file_read room (Some n) f = (f', Ok out) ->
  f_closed f = false /\ n <= read_max room
  /\ out = firstn (Z.to_nat n) (skipn (f_pos f) (f_data f))
  /\ f' = mkFile (f_data f) (f_pos f + List.length out) false.
Proof.
  intros Hn. unfold file_read.
  destruct ((n <? - SSIZE_MAX - 1) || (SSIZE_MAX <? n)); [discriminate|].
  destruct (Z.ltb_spec n (-1)); [discriminate|].
  destruct (f_closed f); [discriminate|].
  destruct (Z.eqb_spec n (-1)); [lia|].
  destruct (alloc_bytes room n) eqn:Halloc; [discriminate|].
  intros [= <- <-]. rewrite firstn_clamp. split; [reflexivity|].
  split; [apply alloc_bytes_none; assumption|]. split; reflexivity.
Qed.

(** What a file object raises when it is open and asked for [n >= 0]
    bytes, or for all of them. *)
Lemma file_read_raises (room : Z) (arg : option Z) (f f' : FileObject) (e : exn) :
  f_closed f = false ->
  match arg with Some n => 0 <= n | None => True end ->
  file_read room arg f = (f', Raise e) ->
  f' = f /\ (e = MemoryError \/ exists msg, e = OverflowError msg).
Proof.
  intros Hopen Harg. unfold file_read. rewrite Hopen.
  destruct ((match arg with Some n => n | None => -1 end <? - SSIZE_MAX - 1)
            || (SSIZE_MAX <? match arg with Some n => n | None => -1 end)).
  { intros [= <- <-]. split; [reflexivity|]. right. eexists. reflexivity. }
  destruct (Z.ltb_spec (match arg with Some n => n | None => -1 end) (-1)).
  { destruct arg; lia. }
  unfold alloc_bytes.
  set (m := if match arg with Some n => n | None => -1 end =? -1
            then len (skipn (f_pos f) (f_data f))
            else match arg with Some n => n | None => -1 end).
  destruct (BYTES_MAX <? m).
  { intros [= <- <-]. split; [reflexivity|]. right. eexists. reflexivity. }
  destruct ((0 <? m) && (room <? m)); [|discriminate].
  intros [= <- <-]. split; [reflexivity|]. left. reflexivity.
Qed.




(** A [read] that raises, or returns as many bytes as it was asked for,
    keeps the pointer inside the buffer. *)
Lemma cursor_inv_read_exact {S : Type} {hooks : VideoReaderHooks S}
    (ss : session S) (n : Z) :
  cursor_inv ss ->
  (forall out, 0 <= n -> snd (read n ss) = Ok out -> len out = n) ->
  cursor_inv (fst (read n ss)).
Proof.
  intros (buf & Hb & Hp).
  destruct ss as [[loc cap s tb b ptr] cs]. simpl in Hb, Hp. subst b.
  destruct (Z.lt_ge_cases n 0) as [Hn|Hn].
  { intros _. rewrite read_negative by assumption. exists buf.
    unfold after_stream_read. simpl. auto. }
  destruct (Z.lt_ge_cases cap (len buf)) as [Hfull|Hfull].
  { intros _. rewrite read_overflowed by assumption. exists buf.
    unfold after_stream_read. simpl. auto. }
  destruct (Z.eq_dec (len buf) (ptr + 1)) as [Hfr|Hfr].
  { rewrite read_frontier by lia.
    destruct (stream_read (Some n) s) as [s' [data|err]];
      unfold after_stream_read; simpl; intros Hex.
    - exists (buf ++ data). split; [reflexivity|]. simpl.
      rewrite len_app, (Hex data Hn eq_refl). lia.
    - exists buf. auto. }
  destruct (Z.le_gt_cases n (len buf - (ptr + 1))) as [Hin|Hin].
  { intros _. rewrite read_buffered by lia. exists buf. simpl.
    split; [reflexivity|lia]. }
  rewrite read_straddling by lia. cbv zeta.
  destruct (stream_read (Some (n - (len buf - (ptr + 1)))) s)
    as [s' [data|err]];
      unfold after_stream_read; simpl; intros Hex.
  - exists (buf ++ data). split; [reflexivity|]. simpl.
    pose proof (Hex _ Hn eq_refl) as Hlen.
    rewrite len_app, py_slice_from, len_skipn in Hlen by lia.
    rewrite len_app. lia.
  - exists buf. auto.
Qed.

Lemma Remote_exact_or_fail (net : network) :
  exact_or_fail (hooks := RemoteFileReader_hooks net).
Proof.
  intros [resp it ending] s' n out Hn. simpl.
  destruct (Z.le_gt_cases n (len it)) as [Hin|Hout].
  - rewrite remote_read_enough by lia. intros [= _ <-]. apply len_firstn. lia.
  - rewrite remote_read_exhausted by lia. discriminate.
Qed.

(** A [read] of a local file that stays within the unread buffered bytes
    and what is left of the file keeps the pointer inside the buffer. *)
Lemma file_cursor_inv_read (sys : system) (ss : session FileObject) (n : Z) :
  cursor_inv ss ->
  n <= len (unread (self ss))
       + len (skipn (f_pos (stream (self ss))) (f_data (stream (self ss)))) ->
  cursor_inv (fst (read (hooks := FileVideoReader_hooks sys) n ss)).
Proof.
  intros Hinv Hwithin. apply cursor_inv_read_exact; [assumption|].
  destruct Hinv as (buf & Hb & Hp). intros out Hn.
  destruct (Z.le_gt_cases n (len (unread (self ss)))) as [Hin|Hout].
  - destruct ss as [[loc cap s tb b ptr] cs]. unfold unread in *.
    cbn [self _buffer _buffer_pointer max_buffer_length stream] in *. subst b.
    assert (Hstream : forall f' data,
               file_read (alloc_max sys) (Some n) s = (f', Ok data) ->
               n = 0 -> len data = n).
    { intros f' data Hrd ->.
      destruct (file_read_returns _ _ _ _ _ (Z.le_refl 0) Hrd) as (_ & _ & -> & _).
      reflexivity. }
    destruct (Z.ltb_spec cap (len buf)) as [Hfull|Hfull].
    { change (len (@nil byte)) with 0 in Hin.
      rewrite read_overflowed by lia. cbn [snd]. simpl stream_read.
      destruct (file_read (alloc_max sys) (Some n) s) as [f' r] eqn:Hrd.
      cbn [snd]. intros ->. apply (Hstream f' out eq_refl). lia. }
    rewrite py_slice_from, len_skipn in Hin by lia.
    destruct (Z.eq_dec (len buf) (ptr + 1)) as [Hfr|Hfr].
    { rewrite read_frontier by lia. simpl stream_read.
      destruct (file_read (alloc_max sys) (Some n) s) as [f' [data|err]] eqn:Hrd;
        cbn [snd]; [|discriminate].
      intros [= <-]. apply (Hstream f' data eq_refl). lia. }
    rewrite read_buffered by lia. cbn [snd]. intros [= <-].
    replace (ptr + n - n + 1) with (ptr + 1) by lia.
    rewrite py_slice_inside by lia. unfold len. rewrite length_firstn, length_skipn.
    unfold len in *. lia.
  - rewrite (read_asks_source ss buf n Hb Hp Hout). simpl stream_read.
    destruct (file_read (alloc_max sys) (Some (n - len (unread (self ss))))
                        (stream (self ss))) as [f' [data|err]] eqn:Hrd;
      cbn [snd]; [|discriminate].
    intros [= <-].
    assert (Hk : 0 <= n - len (unread (self ss))) by lia.
    destruct (file_read_returns _ _ _ _ _ Hk Hrd) as (_ & _ & -> & _).
    rewrite len_app, len_firstn; lia.
Qed.

(** C7 (counterexample).  A local-file reader over the two bytes 05 80:
    after [read(5)] the buffer holds two bytes and the pointer is 4. *)
Lemma cursor_inv_broken_by_short_read :
  ~ cursor_inv (fst (read (hooks := file_hooks [Byte.x05; Byte.x80]) 5
                          (file_session [Byte.x05; Byte.x80] 8))).
Proof.
  intros (buf & Hb & Hp). vm_compute in Hb. injection Hb as <-.
  vm_compute in Hp. destruct Hp as [_ Hp]. apply Hp. reflexivity.
Qed.

(** C7 (amended).  [0 <= cursor_position + 1 <= len(buffer)] holds after
    construction and is kept by every [refresh()], and by every [read(n)]
    that raises or returns as many bytes as it was asked for.  Every
    [read(n)] of the remote reader is such a call.  So is every [read(n)]
    of the local-file reader that asks for no more than the unread buffered
    bytes and what is left of the file together; only a read past the end
    of the file, which returns short, breaks the invariant. *)
Theorem cursor_invariant :
  (forall (S : Type) (hooks : VideoReaderHooks S) loc cap log log' rd,
      VideoReader_init loc cap log = (log', Ok rd) ->
      cursor_inv (mkSession rd log'))
  /\ (forall (S : Type) (hooks : VideoReaderHooks S) (ss : session S),
        cursor_inv ss -> cursor_inv (fst (refresh ss)))
  /\ (forall (S : Type) (hooks : VideoReaderHooks S) (ss : session S) (n : Z),
        cursor_inv ss ->
        (forall out, 0 <= n -> snd (read n ss) = Ok out -> len out = n) ->
        cursor_inv (fst (read n ss)))
  /\ (forall (net : network) (ss : session RemoteFileStreamAdapter) (n : Z),
        cursor_inv ss ->
        cursor_inv (fst (read (hooks := RemoteFileReader_hooks net) n ss)))
  /\ (forall (sys : system) (ss : session FileObject) (n : Z),
        cursor_inv ss ->
        n <= len (unread (self ss))
             + len (skipn (f_pos (stream (self ss))) (f_data (stream (self ss)))) ->
        cursor_inv (fst (read (hooks := FileVideoReader_hooks sys) n ss))).
Proof.
  split; [|split; [|split; [|split]]].
  - intros S hooks loc cap log log' rd. apply cursor_inv_init.
  - intros S hooks ss. apply cursor_inv_refresh.
  - intros S hooks ss n. apply cursor_inv_read_exact.
  - intros net ss n. apply cursor_inv_read. apply Remote_exact_or_fail.
  - intros sys ss n. apply file_cursor_inv_read.
Qed.

Lemma cursor_invariant_witness :
  cursor_inv (fst (read (hooks := remote_hooks four_bytes) 1
                     (fst (read (hooks := remote_hooks four_bytes) 2
                                (remote_session four_bytes 8)))))
  /\ cursor_inv (fst (read (hooks := file_hooks four_bytes) 3
                        (fst (read (hooks := file_hooks four_bytes) 1
                                   (file_session four_bytes 8))))).
Proof.
  destruct cursor_invariant as (Hinit & _ & _ & Hremote & Hfile).
  split.
  - apply (Hremote (sample_net (sample_response four_bytes))).
    apply (Hremote (sample_net (sample_response four_bytes))).
    apply (Hinit _ (remote_hooks four_bytes) "http://host/clip.mp4" 8 []).
    reflexivity.
  - apply (Hfile (sample_sys four_bytes)).
    + apply (Hfile (sample_sys four_bytes)).
      * apply (Hinit _ (file_hooks four_bytes) "clip.mp4" 8 []). reflexivity.
      * vm_compute. discriminate.
    + vm_compute. discriminate.
Defined.

(** C10.  In every session a local-file or a remote reader can get to by
    construction, [read] and [refresh] (so the reader is not closed),
    [read(0)] returns the empty byte string and leaves the reader as it
    was: buffer, pointer and the state of the source. *)
Theorem read_zero_noop :
  (forall (sys : system) (loc : string) (cap : Z) (ss : session FileObject),
      reachable (hooks := FileVideoReader_hooks sys) loc cap ss ->
      snd (read (hooks := FileVideoReader_hooks sys) 0 ss) = Ok []
      /\ self (fst (read (hooks := FileVideoReader_hooks sys) 0 ss)) = self ss)
  /\ (forall (net : network) (loc : string) (cap : Z)
             (ss : session RemoteFileStreamAdapter),
        reachable (hooks := RemoteFileReader_hooks net) loc cap ss ->
        snd (read (hooks := RemoteFileReader_hooks net) 0 ss) = Ok []
        /\ self (fst (read (hooks := RemoteFileReader_hooks net) 0 ss)) = self ss).
Proof.
  split.
  - intros sys loc cap ss Hreach.
    apply (steady_read_zero (laws := File_end sys)).
    apply (reachable_steady (laws := File_end sys) loc cap). assumption.
  - intros net loc cap ss Hreach.
    apply (steady_read_zero (laws := Remote_end net)).
    apply (reachable_steady (laws := Remote_end net) loc cap). assumption.
Qed.

Lemma read_zero_noop_witness :
  snd (read (hooks := file_hooks [Byte.x05; Byte.x80]) 0
         (fst (read (hooks := file_hooks [Byte.x05; Byte.x80]) 5
                    (file_session [Byte.x05; Byte.x80] 8)))) = Ok []
  /\ self (fst (read (hooks := file_hooks [Byte.x05; Byte.x80]) 0
             (fst (read (hooks := file_hooks [Byte.x05; Byte.x80]) 5
                        (file_session [Byte.x05; Byte.x80] 8)))))
     = self (fst (read (hooks := file_hooks [Byte.x05; Byte.x80]) 5
                       (file_session [Byte.x05; Byte.x80] 8))).
Proof.
  apply (proj1 read_zero_noop (sample_sys [Byte.x05; Byte.x80]) "clip.mp4" 8).
  apply reach_read; [|exact I].
  apply (reach_init (hooks := file_hooks [Byte.x05; Byte.x80])
           (fun _ => True) "clip.mp4" 8 [] [EvOpen "clip.mp4"]).
  reflexivity.
Defined.

(** ** The fixed-point decode *)

Lemma bits_msb_length (w : nat) (x : Z) : String.length (bits_msb w x) = w.
Proof. induction w; simpl; congruence. Qed.

Lemma bits_msb_double (w : nat) (y : Z) (b : bool) :
  bits_msb (S w) (2 * y + Z.b2z b) =
  String.append (bits_msb w y) (String (bit_char b) EmptyString).
Proof.
  induction w as [|w IH].
  - unfold bits_msb. change (Z.of_nat 0) with 0.
    rewrite Z.testbit_0_r. reflexivity.
  - change (bits_msb (S (S w)) (2 * y + Z.b2z b))
      with (String (bit_char (Z.testbit (2 * y + Z.b2z b) (Z.of_nat (S w))))
                   (bits_msb (S w) (2 * y + Z.b2z b))).
    rewrite IH. rewrite Nat2Z.inj_succ, Z.testbit_succ_r by lia.
    reflexivity.
Qed.

Lemma append_assoc (a b c : string) :
  String.append (String.append a b) c = String.append a (String.append b c).
Proof. induction a; simpl; congruence. Qed.

Lemma pos_digits_bits (p : positive) (acc : string) :
  pos_digits p acc = String.append (bits_msb (Pos.size_nat p) (Zpos p)) acc.
Proof.
  revert acc. induction p as [q IH|q IH|]; intros acc.
  - simpl pos_digits. simpl Pos.size_nat. rewrite IH.
    change (Zpos q~1) with (2 * Zpos q + Z.b2z true).
    rewrite bits_msb_double, append_assoc. reflexivity.
  - simpl pos_digits. simpl Pos.size_nat. rewrite IH.
    change (Zpos q~0) with (2 * Zpos q + Z.b2z false).
    rewrite bits_msb_double, append_assoc. reflexivity.
  - reflexivity.
Qed.

Lemma size_nat_bound (p : positive) (w : nat) :
  Zpos p < 2 ^ Z.of_nat w -> (Pos.size_nat p <= w)%nat.
Proof.
  revert w. induction p as [q IH|q IH|]; intros w Hw.
  - destruct w as [|w]; [simpl in Hw; lia|].
    rewrite Nat2Z.inj_succ, Z.pow_succ_r in Hw by lia.
    simpl. apply le_n_S, IH. lia.
  - destruct w as [|w]; [simpl in Hw; lia|].
    rewrite Nat2Z.inj_succ, Z.pow_succ_r in Hw by lia.
    simpl. apply le_n_S, IH. lia.
  - destruct w as [|w]; [simpl in Hw; lia|]. simpl. lia.
Qed.

Lemma testbit_above_size (p : positive) (j : nat) :
  (Pos.size_nat p <= j)%nat -> Z.testbit (Zpos p) (Z.of_nat j) = false.
Proof.
  revert j. induction p as [q IH|q IH|]; intros j Hj; simpl in Hj.
  - destruct j as [|j]; [lia|]. change (Zpos q~1) with (2 * Zpos q + Z.b2z true).
    rewrite Nat2Z.inj_succ, Z.testbit_succ_r by lia. apply IH. lia.
  - destruct j as [|j]; [lia|]. change (Zpos q~0) with (2 * Zpos q + Z.b2z false).
    rewrite Nat2Z.inj_succ, Z.testbit_succ_r by lia. apply IH. lia.
  - destruct j as [|j]; [lia|]. rewrite Nat2Z.inj_succ.
    change 1 with (2 * 0 + Z.b2z true).
    rewrite Z.testbit_succ_r by lia. apply Z.testbit_0_l.
Qed.

Lemma bits_msb_pad (p : positive) (k : nat) :
  bits_msb (k + Pos.size_nat p) (Zpos p) =
  String.append (zeros k) (bits_msb (Pos.size_nat p) (Zpos p)).
Proof.
  induction k as [|k IH]; [reflexivity|].
  simpl. rewrite IH, testbit_above_size by lia. reflexivity.
Qed.

Lemma bits_msb_zero (w : nat) : bits_msb w 0 = zeros w.
Proof.
  induction w as [|w IH]; [reflexivity|].
  cbn [bits_msb zeros]. rewrite Z.testbit_0_l, IH. reflexivity.
Qed.

Lemma pos_digits_head (p : positive) (acc : string) :
  exists t, pos_digits p acc = String "1" t.
Proof.
  revert acc. induction p; intros acc; simpl; eauto.
Qed.

Lemma append_nil_r (s : string) : String.append s EmptyString = s.
Proof. induction s; simpl; congruence. Qed.

(** The string [read_float] indexes is the field written in binary on
    [width] digits. *)
Lemma after_point_bits_spec (x : Z) (w : nat) :
  0 <= x < 2 ^ Z.of_nat w ->
  zfill (lstrip (bin x) "0b") (Z.of_nat w) = bits_msb w x.
Proof.
  intros [Hx0 Hx]. destruct x as [|p|p]; [| |lia].
  - simpl. rewrite bits_msb_zero. unfold zfill. simpl String.length.
    destruct (Z.leb_spec (Z.of_nat w) (Z.of_nat 0)) as [Hw|Hw].
    + replace w with 0%nat by lia. reflexivity.
    + rewrite Z.sub_0_r, Nat2Z.id. reflexivity.
  - assert (Hstrip : lstrip (bin (Zpos p)) "0b" = pos_digits p "").
    { simpl. destruct (pos_digits_head p "") as [t Ht]. rewrite Ht. reflexivity. }
    rewrite Hstrip. pose proof (size_nat_bound p w Hx) as Hsize.
    rewrite pos_digits_bits, append_nil_r.
    replace w with ((w - Pos.size_nat p) + Pos.size_nat p)%nat at 2 by lia.
    rewrite bits_msb_pad. unfold zfill. rewrite bits_msb_length.
    destruct (Z.leb_spec (Z.of_nat w) (Z.of_nat (Pos.size_nat p))) as [Hw|Hw].
    + replace (w - Pos.size_nat p)%nat with 0%nat by lia. reflexivity.
    + replace (Z.to_nat (Z.of_nat w - Z.of_nat (Pos.size_nat p)))
        with (w - Pos.size_nat p)%nat by lia.
      destruct (pos_digits_head p "") as [t Ht].
      rewrite pos_digits_bits, append_nil_r in Ht. rewrite Ht. reflexivity.
Qed.

Lemma bits_msb_get (w : nat) (x : Z) (i : nat) :
  (i < w)%nat ->
  String.get i (bits_msb w x) =
    Some (bit_char (Z.testbit x (Z.of_nat w - 1 - Z.of_nat i))).
Proof.
  revert i. induction w as [|w IH]; intros i Hi; [lia|].
  destruct i as [|i].
  - simpl String.get. do 3 f_equal. lia.
  - simpl String.get. rewrite IH by lia. do 3 f_equal. lia.
Qed.

Lemma float_of_bit_char (b : bool) : float_of_char (bit_char b) = Ok (bit_float b).
Proof. destruct b; vm_compute; reflexivity. Qed.

Lemma after_point_term_spec (x : Z) (w : nat) (i : Z) :
  0 <= i < Z.of_nat w ->
  after_point_term (bits_msb w x) i = fraction_term x (Z.of_nat w) i.
Proof.
  intros Hi. unfold after_point_term, str_index, fraction_term, field_bit.
  rewrite bits_msb_length. destruct (Z.ltb_spec i 0); [lia|].
  destruct (Z.leb_spec 0 i); [|lia]. destruct (Z.ltb_spec i (Z.of_nat w)); [|lia].
  simpl andb. cbv iota. rewrite bits_msb_get by lia. rewrite Z2Nat.id by lia.
  rewrite float_of_bit_char. reflexivity.
Qed.

Lemma py_sum_ext (f g : Z -> result pynum) (l : list Z) :
  (forall i, In i l -> f i = g i) -> py_sum f l = py_sum g l.
Proof.
  unfold py_sum. generalize (Ok (PyInt 0)).
  induction l as [|i l IH]; intros acc Hfg; [reflexivity|].
  simpl. rewrite (Hfg i) by (left; reflexivity).
  apply IH. intros j Hj. apply Hfg. right. assumption.
Qed.

Lemma range_bounds (n i : Z) : In i (range n) -> 0 <= i < n.
Proof.
  unfold range. rewrite in_map_iff. intros (k & <- & Hk).
  apply in_seq in Hk. lia.
Qed.

Lemma byte_value_bounds (b : byte) : 0 <= byte_value b < 256.
Proof.
  unfold byte_value. pose proof (Byte.to_N_bounded b). lia.
Qed.

Lemma len_cons {A} (x : A) (l : list A) : len (x :: l) = Z.succ (len l).
Proof. unfold len. simpl List.length. apply Nat2Z.inj_succ. Qed.

Lemma big_endian_from (l : bytes) (acc : Z) :
  fold_left (fun a x => a * 256 + byte_value x) l acc
  = acc * 256 ^ len l + big_endian l.
Proof.
  unfold big_endian. revert acc. induction l as [|b l IH]; intros acc.
  - unfold len. simpl. lia.
  - cbn [fold_left]. rewrite IH, (IH (0 * 256 + byte_value b)).
    pose proof (len_nonneg l). rewrite len_cons, Z.pow_succ_r by lia. lia.
Qed.

Lemma big_endian_cons (b : byte) (l : bytes) :
  big_endian (b :: l) = byte_value b * 256 ^ len l + big_endian l.
Proof.
  unfold big_endian at 1. cbn [fold_left]. rewrite big_endian_from. lia.
Qed.

Lemma little_endian_cons (b : byte) (l : bytes) :
  little_endian (b :: l) = byte_value b + 256 * little_endian l.
Proof. reflexivity. Qed.

Lemma big_endian_bounds (l : bytes) : 0 <= big_endian l < 256 ^ len l.
Proof.
  induction l as [|b l IH].
  - unfold big_endian, len. simpl. lia.
  - rewrite big_endian_cons. pose proof (byte_value_bounds b).
    pose proof (len_nonneg l). rewrite len_cons, Z.pow_succ_r by lia. nia.
Qed.

Lemma little_endian_bounds (l : bytes) : 0 <= little_endian l < 256 ^ len l.
Proof.
  induction l as [|b l IH].
  - unfold little_endian, len. simpl. lia.
  - rewrite little_endian_cons. pose proof (byte_value_bounds b).
    pose proof (len_nonneg l). rewrite len_cons, Z.pow_succ_r by lia. lia.
Qed.

(** [int.from_bytes] of [k] bytes is below [256^k]. *)
Lemma int_from_bytes_bounds (data : bytes) (byteorder : string) (v : Z) :
  int_from_bytes data byteorder = Ok v -> 0 <= v < 256 ^ len data.
Proof.
  unfold int_from_bytes.
  destruct (String.eqb byteorder "big"); [|destruct (String.eqb byteorder "little")];
    [| |discriminate]; intros [= <-].
  - apply big_endian_bounds.
  - apply little_endian_bounds.
Qed.

(** C6.  When [read_float(a, b, byteorder)] gets [before_data] from its
    first read and at most [b] bytes [after_data] from its second, it
    returns the integer decoded from [before_data] plus the sum, over the
    bits [i] of the [b*8]-bit field decoded from [after_data], most
    significant first, of that bit times [2^(-1-i)].  On 01 01, 11 10 and
    05 80, [read_float(1, 1, 'big')] returns the floats 1.00390625, 17.0625
    and 5.5. *)
Theorem read_float_fixed_point :
  (forall (S : Type) (hooks : VideoReaderHooks S) (ss ss1 ss2 : session S)
          (a b : Z) (byteorder : string) (before_data after_data : bytes)
          (int_part field : Z),
      read a ss = (ss1, Ok before_data) ->
      int_from_bytes before_data byteorder = Ok int_part ->
      read b ss1 = (ss2, Ok after_data) ->
      int_from_bytes after_data byteorder = Ok field ->
      0 <= b ->
      len after_data <= b ->
      read_float a b byteorder ss = (ss2, fixed_point int_part field (b * 8)))
  /\ snd (read_float (hooks := file_hooks [Byte.x01; Byte.x01]) 1 1 "big"
                     (file_session [Byte.x01; Byte.x01] 8))
     = Ok (PyFloat 1.00390625%float)
  /\ snd (read_float (hooks := file_hooks [Byte.x11; Byte.x10]) 1 1 "big"
                     (file_session [Byte.x11; Byte.x10] 8))
     = Ok (PyFloat 17.0625%float)
  /\ snd (read_float (hooks := file_hooks [Byte.x05; Byte.x80]) 1 1 "big"
                     (file_session [Byte.x05; Byte.x80] 8))
     = Ok (PyFloat 5.5%float).
Proof.
  split; [|repeat split; vm_compute; reflexivity].
  intros S hooks ss ss1 ss2 a b byteorder before_data after_data int_part field
         Hrd1 Hint Hrd2 Hfield Hb Hlen.
  unfold read_float, bind, lift_result. rewrite Hrd1, Hint, Hrd2, Hfield.
  pose proof (int_from_bytes_bounds _ _ _ Hfield) as Hbound.
  pose proof (len_nonneg after_data) as Hl.
  assert (Hpow : 256 ^ len after_data <= 2 ^ (b * 8)).
  { rewrite (Z.mul_comm b 8), Z.pow_mul_r by lia. change (2 ^ 8) with 256.
    apply Z.pow_le_mono_r; lia. }
  rewrite <- (Z2Nat.id (b * 8)) at 1 by lia.
  rewrite after_point_bits_spec by (rewrite Z2Nat.id by lia; lia).
  unfold fixed_point.
  rewrite (py_sum_ext _ (fraction_term field (b * 8))).
  - destruct (py_sum (fraction_term field (b * 8)) (range (b * 8)));
      reflexivity.
  - intros i Hi. apply range_bounds in Hi.
    rewrite after_point_term_spec by (rewrite Z2Nat.id by lia; lia).
    rewrite Z2Nat.id by lia. reflexivity.
Qed.

Lemma read_float_fixed_point_witness :
  read_float (hooks := file_hooks [Byte.x05; Byte.x80]) 1 1 "little"
             (file_session [Byte.x05; Byte.x80] 8)
  = (fst (read (hooks := file_hooks [Byte.x05; Byte.x80]) 1
            (fst (read (hooks := file_hooks [Byte.x05; Byte.x80]) 1
                       (file_session [Byte.x05; Byte.x80] 8)))),
     fixed_point 5 128 (1 * 8)).
Proof.
  apply (proj1 read_float_fixed_point FileObject
           (file_hooks [Byte.x05; Byte.x80]) _
           (fst (read (hooks := file_hooks [Byte.x05; Byte.x80]) 1
                      (file_session [Byte.x05; Byte.x80] 8)))
           _ 1 1 "little" [Byte.x05] [Byte.x80]).
  - reflexivity.
  - reflexivity.
  - reflexivity.
  - reflexivity.
  - lia.
  - vm_compute. discriminate.
Defined.

(** C8 (the code at the failing input).  [_init_total_bytes] of the remote
    reader subscripts the method [headers.get] instead of calling it; that
    raises a [TypeError], which the bare [except] swallows.  So whatever the
    headers of the response are, [total_bytes] keeps its value, and a remote
    reader is always constructed with [total_bytes = -1]: also over the
    response whose headers carry [Content-Length: 1000]. *)
Theorem remote_total_bytes_stays_unknown :
  (forall (resp : Response) (total : Z),
      Remote_init_total_bytes resp total = total)
  /\ (forall (net : network) (loc : string) (cap : Z) (log log' : list event)
             (rd : VideoReader RemoteFileStreamAdapter),
        RemoteFileReader_init net loc cap log = (log', Ok rd) ->
        total_bytes rd = -1)
  /\ (headers (short_response four_bytes) = [("Content-Length", "1000")]
      /\ exists log' rd,
           RemoteFileReader_init (sample_net (short_response four_bytes))
                                 "http://host/clip.mp4" 8 [] = (log', Ok rd)
           /\ total_bytes rd = -1).
Proof.
  split; [reflexivity|]. split.
  - intros net loc cap log log' rd Hinit.
    apply RemoteFileReader_init_base in Hinit. revert Hinit.
    unfold VideoReader_init, bind, emit, modify, lift_result, ret. simpl.
    destruct (Remote_open_stream net loc); [|discriminate].
    intros [= _ <-]. reflexivity.
  - split; [reflexivity|]. do 2 eexists. split; reflexivity.
Qed.

(** C9.  [FileVideoReader(loc)] on a path that does not exist, or that
    names an empty file, raises [Exception('File ... not exist.')] before
    anything is opened and without a reader object.  [RemoteFileReader(loc)]
    on a location that starts with neither [http] nor [ftp] logs an error
    and raises [SystemExit(-1)]; no request is made and there is no reader
    object.  ["notaurl"] is such a location. *)
Theorem constructors_reject_bad_locations :
  (forall (sys : system) (loc : string) (cap : Z) (log : list event),
      files sys loc = None
      \/ (exists readable, files sys loc = Some (RegularFile [] readable)) ->
      FileVideoReader_init sys loc cap log =
        (log, Raise (Exception ("File " ++ loc ++ " not exist.")%string)))
  /\ (forall (net : network) (loc : string) (cap : Z) (log : list event),
        startswith loc "http" = false ->
        startswith loc "ftp" = false ->
        exists msg,
          RemoteFileReader_init net loc cap log =
            (log ++ [EvLogError msg], Raise (SystemExit (-1))))
  /\ (startswith "notaurl" "http" = false /\ startswith "notaurl" "ftp" = false).
Proof.
  split; [|split; [|split; reflexivity]].
  - intros sys loc cap log [Hnone|[readable Hempty]];
      unfold FileVideoReader_init, os_path_exists, os_path_getsize.
    + rewrite Hnone. reflexivity.
    + rewrite Hempty. reflexivity.
  - intros net loc cap log Hhttp Hftp. unfold RemoteFileReader_init.
    rewrite Hhttp, Hftp. simpl. eexists. reflexivity.
Qed.

Lemma constructors_reject_bad_locations_witness :
  FileVideoReader_init (sample_sys four_bytes) "missing.mp4" 8 [] =
    ([], Raise (Exception "File missing.mp4 not exist."))
  /\ FileVideoReader_init (sample_sys []) "clip.mp4" 8 [] =
       ([], Raise (Exception "File clip.mp4 not exist."))
  /\ exists msg,
       RemoteFileReader_init (sample_net (sample_response four_bytes))
                             "notaurl" 8 [] =
         ([] ++ [EvLogError msg], Raise (SystemExit (-1))).
Proof.
  split; [|split].
  - apply (proj1 constructors_reject_bad_locations
             (sample_sys four_bytes) "missing.mp4" 8 []).
    left. reflexivity.
  - apply (proj1 constructors_reject_bad_locations
             (sample_sys []) "clip.mp4" 8 []).
    right. exists true. reflexivity.
  - apply (proj1 (proj2 constructors_reject_bad_locations)
             (sample_net (sample_response four_bytes)) "notaurl" 8 []);
      reflexivity.
Defined.

(** * Further properties *)

(** ** Cheap refresh after reads of non-negative length *)

Section Mirror.

Context {S : Type} {hooks : VideoReaderHooks S}
        {rest : S -> option bytes} {policy : eof_policy}
        {laws : SourceLaws hooks rest policy}.






End Mirror.



(** ** What [read] and [refresh] do to the buffer *)

(** X2.  [read] never drops a buffered byte: the buffer after the call is
    the buffer before it, possibly extended.  For [n < 0], and once the
    buffer is past the capacity, neither the buffer nor the pointer
    changes.  The location, the capacity and [total_bytes] never change. *)
Theorem read_keeps_buffered_bytes {S : Type} {hooks : VideoReaderHooks S}
    (ss : session S) (n : Z) (buf : bytes) :
  _buffer (self ss) = Some buf ->
  (exists extra, _buffer (self (fst (read n ss))) = Some (buf ++ extra))
  /\ (n < 0 \/ max_buffer_length (self ss) < len buf ->
      _buffer (self (fst (read n ss))) = Some buf
      /\ _buffer_pointer (self (fst (read n ss))) = _buffer_pointer (self ss))
  /\ video_loc (self (fst (read n ss))) = video_loc (self ss)
  /\ max_buffer_length (self (fst (read n ss))) = max_buffer_length (self ss)
  /\ total_bytes (self (fst (read n ss))) = total_bytes (self ss).
Proof.
  intros Hb. destruct ss as [[loc cap s tb b ptr] cs].
  cbn [self _buffer _buffer_pointer video_loc max_buffer_length total_bytes] in *.
  subst b.
  destruct (Z.lt_ge_cases n 0) as [Hn|Hn].
  { rewrite read_negative by assumption. unfold after_stream_read. simpl.
    repeat split; auto. exists []. rewrite app_nil_r. reflexivity. }
  destruct (Z.lt_ge_cases cap (len buf)) as [Hfull|Hfull].
  { rewrite read_overflowed by assumption. unfold after_stream_read. simpl.
    repeat split; auto. exists []. rewrite app_nil_r. reflexivity. }
  assert (Hno : ~ (n < 0 \/ cap < len buf)) by lia.
  destruct (Z.eq_dec (len buf) (ptr + 1)) as [Hfr|Hfr].
  { rewrite read_frontier by lia. unfold after_stream_read.
    destruct (stream_read (Some n) s) as [s' [data|err]]; simpl;
      (split; [|split; [intros; contradiction|auto]]).
    - exists data. reflexivity.
    - exists []. rewrite app_nil_r. reflexivity. }
  destruct (Z.le_gt_cases n (len buf - (ptr + 1))) as [Hin|Hin].
  { rewrite read_buffered by lia. simpl.
    split; [|split; [intros; contradiction|auto]].
    exists []. rewrite app_nil_r. reflexivity. }
  rewrite read_straddling by lia. cbv zeta. unfold after_stream_read.
  destruct (stream_read (Some (n - (len buf - (ptr + 1)))) s)
    as [s' [data|err]]; simpl;
    (split; [|split; [intros; contradiction|auto]]).
  - exists data. reflexivity.
  - exists []. rewrite app_nil_r. reflexivity.
Qed.

Lemma read_keeps_buffered_bytes_witness :
  exists extra,
    _buffer (self (fst (read (hooks := file_hooks four_bytes) 3
                          (fst (read (hooks := file_hooks four_bytes) 1
                                     (file_session four_bytes 8))))))
    = Some ([Byte.x01] ++ extra).
Proof.
  exact (proj1 (read_keeps_buffered_bytes (hooks := file_hooks four_bytes)
                  (fst (read (hooks := file_hooks four_bytes) 1
                             (file_session four_bytes 8)))
                  3 [Byte.x01] eq_refl)).
Defined.

(** X3.  When the source cannot be opened again, [refresh()] on a reader
    whose buffer is past the capacity raises the exception of
    [_open_stream]; the old stream has been closed by then, and buffer and
    pointer stay as they were. *)
Theorem refresh_reopen_failure {S : Type} {hooks : VideoReaderHooks S}
    (ss : session S) (buf : bytes) (e : exn) :
  _buffer (self ss) = Some buf ->
  max_buffer_length (self ss) < len buf ->
  _open_stream (video_loc (self ss)) = Raise e ->
  snd (refresh ss) = Raise e
  /\ stream (self (fst (refresh ss))) = stream_close (stream (self ss))
  /\ _buffer (self (fst (refresh ss))) = Some buf
  /\ _buffer_pointer (self (fst (refresh ss))) = _buffer_pointer (self ss)
  /\ calls (fst (refresh ss))
     = calls ss ++ [EvClose; EvOpen (video_loc (self ss))].
Proof.
  intros Hb Hfull Hopen. destruct ss as [[loc cap s tb b ptr] cs].
  cbn [self _buffer _buffer_pointer video_loc max_buffer_length calls stream] in *.
  subst b. rewrite refresh_reopen by assumption. rewrite Hopen.
  repeat split; reflexivity.
Qed.

Lemma refresh_reopen_failure_witness :
  snd (refresh (hooks := file_hooks four_bytes)
         (mkSession (mkReader "gone.mp4" 1 (mkFile four_bytes 2 false) 4
                              (Some [Byte.x01; Byte.x02]) 1) []))
    = Raise (OSError "No such file or directory").
Proof.
  exact (proj1 (refresh_reopen_failure (hooks := file_hooks four_bytes)
                  (mkSession (mkReader "gone.mp4" 1 (mkFile four_bytes 2 false) 4
                                       (Some [Byte.x01; Byte.x02]) 1) [])
                  [Byte.x01; Byte.x02] (OSError "No such file or directory")
                  eq_refl ltac:(vm_compute; reflexivity) eq_refl)).
Defined.

(** X4.  In every session a local-file or a remote reader can get to,
    [refresh()] returns without raising and leaves the pointer at -1. *)
Theorem refresh_succeeds_when_reachable :
  (forall (sys : system) (loc : string) (cap : Z) (ss : session FileObject),
      reachable (hooks := FileVideoReader_hooks sys) loc cap ss ->
      snd (refresh (hooks := FileVideoReader_hooks sys) ss) = Ok tt
      /\ _buffer_pointer
           (self (fst (refresh (hooks := FileVideoReader_hooks sys) ss))) = -1)
  /\ (forall (net : network) (loc : string) (cap : Z)
             (ss : session RemoteFileStreamAdapter),
        reachable (hooks := RemoteFileReader_hooks net) loc cap ss ->
        snd (refresh (hooks := RemoteFileReader_hooks net) ss) = Ok tt
        /\ _buffer_pointer
             (self (fst (refresh (hooks := RemoteFileReader_hooks net) ss))) = -1).
Proof.
  assert (H : forall (S : Type) (hooks : VideoReaderHooks S) left policy bound
                     (ss : session S),
             steady left policy bound ss ->
             snd (refresh ss) = Ok tt
             /\ _buffer_pointer (self (fst (refresh ss))) = -1).
  { intros S hooks left policy bound ss (buf & d & s0 & Hb & _ & Ho & _).
    destruct ss as [[loc cap s tb b ptr] cs].
    cbn [self _buffer video_loc] in *. subst b.
    destruct (Z.lt_ge_cases cap (len buf)) as [Hfull|Hfull].
    - rewrite refresh_reopen by assumption. rewrite Ho. split; reflexivity.
    - rewrite refresh_cheap by assumption. split; reflexivity. }
  split.
  - intros sys loc cap ss Hreach.
    apply (H _ _ file_left ReturnsShort (read_max (alloc_max sys))).
    apply (reachable_steady (laws := File_end sys) loc cap). assumption.
  - intros net loc cap ss Hreach. apply (H _ _ remote_rest RaisesAtEnd 0).
    apply (reachable_steady (laws := Remote_end net) loc cap). assumption.
Qed.

Lemma refresh_succeeds_when_reachable_witness :
  snd (refresh (hooks := file_hooks four_bytes)
         (fst (read (hooks := file_hooks four_bytes) 3
                    (file_session four_bytes 2)))) = Ok tt.
Proof.
  apply (proj1 refresh_succeeds_when_reachable (sample_sys four_bytes)
           "clip.mp4" 2).
  apply reach_read; [|exact I].
  apply (reach_init (hooks := file_hooks four_bytes)
           (fun _ => True) "clip.mp4" 2 [] [EvOpen "clip.mp4"]).
  reflexivity.
Defined.

(** ** Closing *)

(** X5.  [close()] closes the stream, logs the call and sets the buffer to
    [None]; it does not raise.  On the closed reader [read(n)] for every
    [n >= 0] and [refresh()] raise a [TypeError] ([len(None)]) and change
    nothing; [read(n)] for [n < 0] still goes to the closed stream, which
    for a local file raises [ValueError]. *)
Theorem closed_reader_rejects_calls :
  (forall (S : Type) (hooks : VideoReaderHooks S) (ss : session S),
      close ss =
        (mkSession (set_buffer (set_stream (self ss)
                                           (stream_close (stream (self ss))))
                               None)
                   (calls ss ++ [EvClose]),
         Ok tt)
      /\ (forall n, 0 <= n ->
            read n (fst (close ss)) =
              (fst (close ss),
               Raise (TypeError "object of type 'NoneType' has no len()")))
      /\ refresh (fst (close ss)) =
           (fst (close ss),
            Raise (TypeError "object of type 'NoneType' has no len()")))
  /\ (forall (sys : system) (ss : session FileObject) (n : Z),
        n < 0 ->
        snd (read (hooks := FileVideoReader_hooks sys) n
                  (fst (close (hooks := FileVideoReader_hooks sys) ss)))
          = Raise (ValueError "read of closed file")).
Proof.
  split.
  - intros S hooks ss. split; [reflexivity|]. split.
    + intros n Hn. unfold read. destruct (Z.ltb_spec n 0); [lia|]. reflexivity.
    + reflexivity.
  - intros sys ss n Hn. unfold read. destruct (Z.ltb_spec n 0); [|lia].
    reflexivity.
Qed.

Lemma closed_reader_rejects_calls_witness :
  read (hooks := file_hooks four_bytes) 2
       (fst (close (hooks := file_hooks four_bytes) (file_session four_bytes 8)))
  = (fst (close (hooks := file_hooks four_bytes) (file_session four_bytes 8)),
     Raise (TypeError "object of type 'NoneType' has no len()"))
  /\ snd (read (hooks := file_hooks four_bytes) (-1)
            (fst (close (hooks := file_hooks four_bytes)
                        (file_session four_bytes 8))))
     = Raise (ValueError "read of closed file").
Proof.
  split.
  - apply (proj1 (proj2 (proj1 closed_reader_rejects_calls FileObject
                           (file_hooks four_bytes)
                           (file_session four_bytes 8)))).
    lia.
  - apply (proj2 closed_reader_rejects_calls (sample_sys four_bytes)
             (file_session four_bytes 8) (-1)).
    lia.
Defined.

(** ** Memory held by the buffer *)

(** X7.  Over a source that returns exactly what is asked, a reader whose
    reads ask for at most [m] bytes each never buffers more than the
    capacity (or 0 if the capacity is negative) plus [m] bytes: the bound
    holds after construction and is kept by [read] and [refresh].  The
    capacity alone is no bound, and the bound is reached: a remote reader
    with capacity 1 holds four bytes after [read(1)] and [read(3)]. *)
Theorem buffer_stays_bounded :
  (forall (S : Type) (hooks : VideoReaderHooks S) (m : Z),
      exact_or_fail ->
      0 <= m ->
      (forall loc cap log log' rd,
          VideoReader_init loc cap log = (log', Ok rd) ->
          buffer_bounded m (mkSession rd log'))
      /\ (forall ss n, n <= m -> buffer_bounded m ss ->
                       buffer_bounded m (fst (read n ss)))
      /\ (forall ss, buffer_bounded m ss -> buffer_bounded m (fst (refresh ss))))
  /\ (exists buf,
        _buffer (self (fst ((read (hooks := remote_hooks four_bytes) 1 ;;;
                             read (hooks := remote_hooks four_bytes) 3)
                              (remote_session four_bytes 1)))) = Some buf
        /\ 1 < len buf /\ len buf = Z.max 1 0 + 3).
Proof.
  split; [|exists four_bytes; repeat split; reflexivity].
  intros S hooks m Hex Hm. unfold buffer_bounded. split; [|split].
  - intros loc cap log log' rd.
    unfold VideoReader_init, bind, emit, modify, lift_result, ret. simpl.
    destruct (_open_stream loc) as [s0|]; [|discriminate].
    destruct (_init_total_bytes loc s0 (-1)); [|discriminate].
    intros [= <- <-]. exists []. unfold len. simpl. repeat split; try reflexivity; lia.
  - intros ss n Hn (buf & Hb & Hp & Hbound).
    destruct ss as [[loc cap s tb b ptr] cs].
    cbn [self _buffer _buffer_pointer max_buffer_length] in *. subst b.
    destruct (Z.lt_ge_cases n 0) as [Hn0|Hn0].
    { rewrite read_negative by assumption. exists buf.
      cbn [self _buffer _buffer_pointer max_buffer_length fst]. auto. }
    destruct (Z.lt_ge_cases cap (len buf)) as [Hfull|Hfull].
    { rewrite read_overflowed by assumption. exists buf.
      cbn [self _buffer _buffer_pointer max_buffer_length fst]. auto. }
    destruct (Z.eq_dec (len buf) (ptr + 1)) as [Hfr|Hfr].
    { rewrite read_frontier by lia.
      destruct (stream_read (Some n) s) as [s' [data|err]] eqn:Hrd;
        unfold after_stream_read;
        cbn [self _buffer _buffer_pointer max_buffer_length fst].
      - exists (buf ++ data). rewrite len_app, (Hex _ _ _ _ Hn0 Hrd).
        repeat split; try reflexivity; lia.
      - exists buf. auto. }
    destruct (Z.le_gt_cases n (len buf - (ptr + 1))) as [Hin|Hin].
    { rewrite read_buffered by lia. exists buf.
      cbn [self _buffer _buffer_pointer max_buffer_length fst].
      repeat split; try reflexivity; lia. }
    rewrite read_straddling by lia. cbv zeta.
    assert (Hk : 0 <= n - (len buf - (ptr + 1))) by lia.
    destruct (stream_read (Some (n - (len buf - (ptr + 1)))) s)
      as [s' [data|err]] eqn:Hrd; unfold after_stream_read;
      cbn [self _buffer _buffer_pointer max_buffer_length fst].
    + exists (buf ++ data). rewrite len_app, (Hex _ _ _ _ Hk Hrd).
      repeat split; try reflexivity; lia.
    + exists buf. auto.
  - intros ss (buf & Hb & Hp & Hbound).
    destruct ss as [[loc cap s tb b ptr] cs].
    cbn [self _buffer _buffer_pointer max_buffer_length] in *. subst b.
    destruct (Z.lt_ge_cases cap (len buf)) as [Hfull|Hfull].
    + rewrite refresh_reopen by assumption.
      destruct (_open_stream loc);
        cbn [self _buffer _buffer_pointer max_buffer_length fst].
      * exists []. change (len (@nil byte)) with 0.
        repeat split; try reflexivity; lia.
      * exists buf. auto.
    + rewrite refresh_cheap by assumption. exists buf.
      cbn [self _buffer _buffer_pointer max_buffer_length fst].
      repeat split; try reflexivity; lia.
Qed.

Lemma buffer_stays_bounded_witness :
  buffer_bounded 3
    (fst (read (hooks := remote_hooks four_bytes) 3
            (fst (read (hooks := remote_hooks four_bytes) 1
                       (remote_session four_bytes 1))))).
Proof.
  destruct (proj1 buffer_stays_bounded _ (remote_hooks four_bytes) 3
              (Remote_exact_or_fail (sample_net (sample_response four_bytes)))
              ltac:(lia))
    as (Hinit & Hread & _).
  apply Hread; [lia|]. apply Hread; [lia|].
  apply (Hinit "http://host/clip.mp4" 1 []). reflexivity.
Defined.

(** ** The contract of one [read] *)

(** X8.  On a reader whose buffer holds the first bytes of [data] and whose
    source is about to deliver the rest, [read(n)], [n >= 0], with enough
    bytes left and room below the capacity, returns the [n] bytes of [data]
    at the logical position and advances the pointer by [n], whichever of
    the frontier, fully-buffered and straddling cases serves it; the reader
    stays in such a state. *)
Theorem read_returns_window {S : Type} {hooks : VideoReaderHooks S}
    {rest : S -> option bytes} {policy : eof_policy}
    (laws : SourceLaws hooks rest policy)
    (data : bytes) (ss : session S) (n : Z) :
  coherent rest data ss ->
  0 <= n ->
  _buffer_pointer (self ss) + 1 + n <= len data ->
  _buffer_pointer (self ss) + 1 + n <= max_buffer_length (self ss) ->
  snd (read n ss) = Ok (window data (_buffer_pointer (self ss) + 1) n)
  /\ len (window data (_buffer_pointer (self ss) + 1) n) = n
  /\ _buffer_pointer (self (fst (read n ss))) = _buffer_pointer (self ss) + n
  /\ coherent rest data (fst (read n ss)).
Proof.
  intros Hcoh Hn Hend Hroom.
  destruct (read_coherent data ss n Hcoh Hn Hend Hroom)
    as (ss' & Hrd & Hcoh' & Hp & _).
  rewrite Hrd. simpl. repeat split; try assumption.
  destruct Hcoh as (buf & d & _ & _ & _ & Hptr & _).
  unfold window, len in *. rewrite length_firstn, length_skipn. lia.
Qed.

Lemma read_returns_window_witness :
  snd (read (hooks := remote_hooks four_bytes) 2 (remote_session four_bytes 8))
    = Ok (window four_bytes (-1 + 1) 2).
Proof.
  apply (read_returns_window
           (Remote_laws (sample_net (sample_response four_bytes)))
           four_bytes (remote_session four_bytes 8) 2).
  - exists [], four_bytes. vm_compute. repeat split; try reflexivity;
      discriminate.
  - lia.
  - vm_compute. discriminate.
  - vm_compute. discriminate.
Defined.

(** ** The [extend] property *)

Lemma split_on_no_sep (sep : ascii) (s : string) :
  char_in sep s = false -> split_on sep s = [s].
Proof.
  induction s as [|c s IH]; [reflexivity|]. simpl. intros H.
  apply orb_false_iff in H. destruct H as [Hc Hs].
  rewrite Ascii.eqb_sym, Hc, (IH Hs). reflexivity.
Qed.

Lemma split_on_nonempty (sep : ascii) (s : string) : split_on sep s <> [].
Proof.
  destruct s as [|c s]; simpl; [discriminate|].
  destruct (Ascii.eqb c sep); [discriminate|].
  destruct (split_on sep s); discriminate.
Qed.

(** [(base + sep + ext).split(sep)] is [base.split(sep) + ext.split(sep)]. *)
Lemma split_on_app (sep : ascii) (base ext : string) :
  split_on sep (String.append base (String sep ext))
  = split_on sep base ++ split_on sep ext.
Proof.
  induction base as [|c base IH].
  - simpl. rewrite Ascii.eqb_refl. reflexivity.
  - simpl. rewrite IH. destruct (Ascii.eqb c sep); [reflexivity|].
    pose proof (split_on_nonempty sep base) as Hne.
    destruct (split_on sep base) as [|f sys]; [congruence|]. reflexivity.
Qed.

Lemma last_app_nonempty {A} (l1 l2 : list A) (d : A) :
  l2 <> [] -> last (l1 ++ l2) d = last l2 d.
Proof.
  intros Hne. induction l1 as [|x l1 IH]; [reflexivity|].
  simpl app. destruct (l1 ++ l2) eqn:Happ.
  - apply app_eq_nil in Happ. destruct Happ. contradiction.
  - rewrite <- IH. reflexivity.
Qed.

Lemma last_split_on_suffix (sep : ascii) (base ext : string) :
  char_in sep ext = false ->
  last (split_on sep (String.append base (String sep ext))) EmptyString = ext.
Proof.
  intros Hext. rewrite split_on_app, last_app_nonempty.
  - rewrite split_on_no_sep by assumption. reflexivity.
  - apply split_on_nonempty.
Qed.

(** The extension [ext] stands for, as [extend] classifies it. *)
Lemma extend_cases {S : Type} (r : VideoReader S) (ext : string) :
  last (split_on "." (video_loc r)) EmptyString = ext ->
  extend r =
    if String.eqb ext EmptyString then None
    else if str_in (lower ext) COMMON_VIDEO_EXTENDS then Some (lower ext)
         else None.
Proof. intros H. unfold extend. rewrite H. reflexivity. Qed.

(** X9.  [extend] looks at what follows the last dot of the location and,
    when there is no dot, at the whole location: it returns that text in
    lower case when it is one of the eight known extensions, and [None]
    otherwise or when that text is empty. *)
Theorem extend_classifies_suffix {S : Type} (r : VideoReader S) :
  (forall base ext,
      video_loc r = String.append base (String "." ext) ->
      char_in "." ext = false ->
      extend r =
        if String.eqb ext EmptyString then None
        else if str_in (lower ext) COMMON_VIDEO_EXTENDS then Some (lower ext)
             else None)
  /\ (char_in "." (video_loc r) = false ->
      extend r =
        if String.eqb (video_loc r) EmptyString then None
        else if str_in (lower (video_loc r)) COMMON_VIDEO_EXTENDS
             then Some (lower (video_loc r))
             else None).
Proof.
  split.
  - intros base ext Hloc Hext. apply extend_cases. rewrite Hloc.
    apply last_split_on_suffix. assumption.
  - intros Hno. apply extend_cases. rewrite split_on_no_sep by assumption.
    reflexivity.
Qed.

Lemma extend_classifies_suffix_witness :
  extend (mkReader "dir.v1/clip.MP4" 8 tt 0 (Some []) (-1)) = Some "mp4"
  /\ extend (mkReader "mkv" 8 tt 0 (Some []) (-1)) = Some "mkv".
Proof.
  split.
  - exact (proj1 (extend_classifies_suffix
                    (mkReader "dir.v1/clip.MP4" 8 tt 0 (Some []) (-1)))
                 "dir.v1/clip" "MP4" eq_refl eq_refl).
  - exact (proj2 (extend_classifies_suffix
                    (mkReader "mkv" 8 tt 0 (Some []) (-1))) eq_refl).
Defined.

(** X10.  Whatever the location, an extension returned by [extend] is one
    of the eight entries of [COMMON_VIDEO_EXTENDS], is in lower case and
    contains no dot. *)
Theorem extend_returns_known_extension {S : Type} (r : VideoReader S)
    (ext : string) :
  extend r = Some ext ->
  In ext COMMON_VIDEO_EXTENDS /\ lower ext = ext /\ char_in "." ext = false.
Proof.
  unfold extend.
  destruct (String.eqb (last (split_on "." (video_loc r)) EmptyString)
                       EmptyString); [discriminate|].
  destruct (str_in (lower (last (split_on "." (video_loc r)) EmptyString))
                   COMMON_VIDEO_EXTENDS) eqn:Hin; [|discriminate].
  intros [= <-]. unfold str_in in Hin. apply existsb_exists in Hin.
  destruct Hin as (x & Hx & Heq). apply String.eqb_eq in Heq. rewrite Heq.
  split; [assumption|].
  simpl in Hx.
  repeat (destruct Hx as [<-|Hx]; [split; reflexivity|]). contradiction.
Qed.

Lemma extend_returns_known_extension_witness :
  In "avi" COMMON_VIDEO_EXTENDS /\ lower "avi" = "avi"
  /\ char_in "." "avi" = false.
Proof.
  exact (extend_returns_known_extension
           (mkReader "a.b/Movie.AVI" 8 tt 0 (Some []) (-1)) "avi" eq_refl).
Defined.

(** ** Integers from bytes *)

Lemma big_endian_app (a b : bytes) :
  big_endian (a ++ b) = big_endian a * 256 ^ len b + big_endian b.
Proof.
  unfold big_endian at 1 2. rewrite fold_left_app, big_endian_from. reflexivity.
Qed.

Lemma little_endian_rev (l : bytes) : little_endian l = big_endian (rev l).
Proof.
  induction l as [|b l IH].
  - reflexivity.
  - rewrite little_endian_cons, IH. simpl rev. rewrite big_endian_app.
    change (big_endian [b]) with (0 * 256 + byte_value b).
    change (len [b]) with 1. rewrite Z.pow_1_r. lia.
Qed.

(** X11.  [int.from_bytes] as [read_int] and [read_float] use it: with
    ['little'] it is the decode with ['big'] of the bytes reversed; a
    result from [k] bytes lies in [0, 256^k); for ['big'], decoding a
    concatenation shifts the value of the first part by the length of the
    second; and any other byte order raises [ValueError]. *)
Theorem int_from_bytes_properties (data : bytes) :
  int_from_bytes data "little" = int_from_bytes (rev data) "big"
  /\ (forall byteorder v,
        int_from_bytes data byteorder = Ok v -> 0 <= v < 256 ^ len data)
  /\ (forall more,
        int_from_bytes (data ++ more) "big"
        = Ok (big_endian data * 256 ^ len more + big_endian more))
  /\ (forall byteorder,
        byteorder <> "big" -> byteorder <> "little" ->
        int_from_bytes data byteorder
        = Raise (ValueError "byteorder must be either 'little' or 'big'")).
Proof.
  split; [|split; [|split]].
  - unfold int_from_bytes. simpl. rewrite little_endian_rev. reflexivity.
  - intros byteorder v. apply int_from_bytes_bounds.
  - intros more. unfold int_from_bytes. simpl. rewrite big_endian_app.
    reflexivity.
  - intros byteorder Hbig Hlittle. unfold int_from_bytes.
    destruct (String.eqb_spec byteorder "big"); [contradiction|].
    destruct (String.eqb_spec byteorder "little"); [contradiction|].
    reflexivity.
Qed.

Lemma int_from_bytes_properties_witness :
  0 <= 256 < 256 ^ len [Byte.x01; Byte.x00]
  /\ int_from_bytes [Byte.x01; Byte.x00] "native"
     = Raise (ValueError "byteorder must be either 'little' or 'big'").
Proof.
  split.
  - exact (proj1 (proj2 (int_from_bytes_properties [Byte.x01; Byte.x00]))
                 "big" 256 eq_refl).
  - apply (proj2 (proj2 (proj2 (int_from_bytes_properties
                                  [Byte.x01; Byte.x00]))) "native");
      discriminate.
Defined.

(** X12.  [read_int(n, byteorder)] leaves the reader exactly as [read(n)]
    does.  It raises what [read(n)] raises; with a byte order other than
    ['big'] and ['little'] it raises [ValueError] although the bytes have
    been consumed; otherwise it returns a number in [0, 256^k) for the [k]
    bytes read. *)
Theorem read_int_consumes {S : Type} {hooks : VideoReaderHooks S}
    (ss : session S) (n : Z) (byteorder : string) :
  fst (read_int n byteorder ss) = fst (read n ss)
  /\ (forall e, snd (read n ss) = Raise e ->
                snd (read_int n byteorder ss) = Raise e)
  /\ (forall data,
        snd (read n ss) = Ok data ->
        snd (read_int n byteorder ss) = int_from_bytes data byteorder)
  /\ (forall data v,
        snd (read n ss) = Ok data ->
        snd (read_int n byteorder ss) = Ok v ->
        0 <= v < 256 ^ len data).
Proof.
  unfold read_int, bind, lift_result.
  destruct (read n ss) as [ss' [data|e]]; cbn [fst snd].
  - split; [reflexivity|]. split; [intros e0 H; discriminate|].
    split; [intros d [= <-]; reflexivity|].
    intros d v [= <-] Hv. eapply int_from_bytes_bounds; eassumption.
  - split; [reflexivity|]. split; [intros e0 [= <-]; reflexivity|].
    split; intros; discriminate.
Qed.

Lemma read_int_consumes_witness :
  snd (read_int (hooks := file_hooks four_bytes) 2 "middle"
                (file_session four_bytes 8))
    = int_from_bytes [Byte.x01; Byte.x02] "middle"
  /\ _buffer_pointer
       (self (fst (read_int (hooks := file_hooks four_bytes) 2 "middle"
                            (file_session four_bytes 8)))) = 1.
Proof.
  pose proof (read_int_consumes (hooks := file_hooks four_bytes)
                (file_session four_bytes 8) 2 "middle") as (H1 & _ & H3 & _).
  split.
  - apply H3. reflexivity.
  - rewrite H1. reflexivity.
Defined.

(** ** The remote stream adapter *)

(** X13.  [RemoteFileStreamAdapter.read(n)] on an adapter with [it] left
    and [ending] still to come: for [0 <= n <= len(it)] it returns the next
    [n] bytes and keeps the rest; for [n > len(it)] it raises, and the
    bytes that were left are lost: [StopIteration] when the body has ended,
    the exception of the transport when the body broke off; for [n < 0] it
    returns everything left when the body has ended, and raises the
    exception of the transport otherwise; and [read()] without an argument
    is [read(1)].  After a call that raised the adapter is empty. *)
Theorem remote_adapter_read (resp : Response) (it : list byte)
    (ending : option exn) (n : Z) :
  (0 <= n <= len it ->
   remote_read (Some n) (mkRemote resp it ending)
   = (mkRemote resp (skipn (Z.to_nat n) it) ending,
      Ok (firstn (Z.to_nat n) it)))
  /\ (len it < n ->
      remote_read (Some n) (mkRemote resp it ending)
      = (mkRemote resp [] None,
         Raise (match ending with Some e => e | None => StopIteration end)))
  /\ (n < 0 ->
      remote_read (Some n) (mkRemote resp it ending)
      = (mkRemote resp [] None,
         match ending with Some e => Raise e | None => Ok it end))
  /\ remote_read None (mkRemote resp it ending)
     = remote_read (Some 1) (mkRemote resp it ending).
Proof.
  split; [|split; [|split]].
  - apply remote_read_enough.
  - apply remote_read_exhausted.
  - apply remote_read_all.
  - reflexivity.
Qed.

Lemma remote_adapter_read_witness :
  remote_read (Some 5) (mkRemote (sample_response four_bytes) four_bytes None)
    = (mkRemote (sample_response four_bytes) [] None, Raise StopIteration)
  /\ remote_read (Some (-1))
                 (mkRemote (sample_response four_bytes) four_bytes None)
     = (mkRemote (sample_response four_bytes) [] None, Ok four_bytes)
  /\ remote_read (Some 5)
        (mkRemote (short_response four_bytes) four_bytes
                  (Some (ChunkedEncodingError "Connection broken: IncompleteRead")))
     = (mkRemote (short_response four_bytes) [] None,
        Raise (ChunkedEncodingError "Connection broken: IncompleteRead"))
  /\ remote_read (Some 3)
        (mkRemote (short_response four_bytes) four_bytes
                  (Some (ChunkedEncodingError "Connection broken: IncompleteRead")))
     = (mkRemote (short_response four_bytes) [Byte.x04]
                 (Some (ChunkedEncodingError "Connection broken: IncompleteRead")),
        Ok [Byte.x01; Byte.x02; Byte.x03]).
Proof.
  split; [|split; [|split]].
  - apply (proj1 (proj2 (remote_adapter_read (sample_response four_bytes)
                           four_bytes None 5))).
    vm_compute. reflexivity.
  - apply (proj1 (proj2 (proj2 (remote_adapter_read
                                  (sample_response four_bytes)
                                  four_bytes None (-1))))).
    lia.
  - apply (proj1 (proj2 (remote_adapter_read (short_response four_bytes)
                           four_bytes
                           (Some (ChunkedEncodingError
                                    "Connection broken: IncompleteRead")) 5))).
    vm_compute. reflexivity.
  - apply (proj1 (remote_adapter_read (short_response four_bytes)
                    four_bytes
                    (Some (ChunkedEncodingError
                             "Connection broken: IncompleteRead")) 3)).
    vm_compute. split; discriminate.
Defined.

(** ** Construction *)

(** X14.  What [FileVideoReader(loc, cap)] does, by what is at [loc].
    Nothing, an empty file or a directory of size 0: it raises
    [Exception('File ... not exist.')] and opens nothing.  A readable file
    that is not empty: it opens the file once and returns a reader at
    offset 0 with an empty buffer, the pointer at -1 and [total_bytes] the
    size of the file.  A directory, or a file the process may not read,
    passes both tests of the constructor, and [open] then raises
    [IsADirectoryError] or [PermissionError].  So a reader is returned
    exactly on a readable file that is not empty. *)
Theorem file_constructor_outcome (sys : system) (loc : string) (cap : Z)
    (log : list event) :
  FileVideoReader_init sys loc cap log =
    match files sys loc with
    | Some (RegularFile (b :: data) true) =>
        (log ++ [EvOpen loc],
         Ok (mkReader loc cap (mkFile (b :: data) 0 false) (len (b :: data))
                      (Some []) (-1)))
    | Some (RegularFile (b :: data) false) =>
        (log ++ [EvOpen loc], Raise (PermissionError "Permission denied"))
    | Some (Directory size) =>
        if size >? 0
        then (log ++ [EvOpen loc], Raise (IsADirectoryError "Is a directory"))
        else (log, Raise (Exception ("File " ++ loc ++ " not exist.")%string))
    | Some (RegularFile [] _) | None =>
        (log, Raise (Exception ("File " ++ loc ++ " not exist.")%string))
    end
  /\ (forall log' rd,
        FileVideoReader_init sys loc cap log = (log', Ok rd) ->
        exists data,
          files sys loc = Some (RegularFile data true) /\ data <> []
          /\ log' = log ++ [EvOpen loc]
          /\ rd = mkReader loc cap (mkFile data 0 false) (len data)
                           (Some []) (-1)).
Proof.
  assert (Hall : FileVideoReader_init sys loc cap log =
    match files sys loc with
    | Some (RegularFile (b :: data) true) =>
        (log ++ [EvOpen loc],
         Ok (mkReader loc cap (mkFile (b :: data) 0 false) (len (b :: data))
                      (Some []) (-1)))
    | Some (RegularFile (b :: data) false) =>
        (log ++ [EvOpen loc], Raise (PermissionError "Permission denied"))
    | Some (Directory size) =>
        if size >? 0
        then (log ++ [EvOpen loc], Raise (IsADirectoryError "Is a directory"))
        else (log, Raise (Exception ("File " ++ loc ++ " not exist.")%string))
    | Some (RegularFile [] _) | None =>
        (log, Raise (Exception ("File " ++ loc ++ " not exist.")%string))
    end).
  { unfold FileVideoReader_init, os_path_exists, os_path_getsize.
    destruct (files sys loc) as [[[|b data] readable|size]|] eqn:Hfs;
      cbn [negb].
    - destruct readable; reflexivity.
    - unfold bind at 1, lift_result.
      assert (Hpos : (len (b :: data) >? 0) = true).
      { apply Z.gtb_lt. rewrite len_cons. pose proof (len_nonneg data). lia. }
      rewrite Hpos. cbn [negb].
      unfold VideoReader_init, bind, emit, modify, lift_result, ret.
      cbn [_open_stream _init_total_bytes FileVideoReader_hooks].
      unfold open_rb, os_path_getsize. rewrite Hfs.
      destruct readable; reflexivity.
    - unfold bind at 1, lift_result.
      destruct (size >? 0); cbn [negb]; [|reflexivity].
      unfold VideoReader_init, bind, emit, modify, lift_result, ret.
      cbn [_open_stream _init_total_bytes FileVideoReader_hooks].
      unfold open_rb. rewrite Hfs. reflexivity.
    - reflexivity. }
  split; [exact Hall|].
  intros log' rd. rewrite Hall.
  destruct (files sys loc) as [[[|b data] [|]|size]|]; try discriminate.
  - intros [= <- <-]. exists (b :: data).
    repeat split; try reflexivity. discriminate.
  - destruct (size >? 0); discriminate.
Qed.

Lemma file_constructor_outcome_witness :
  FileVideoReader_init (sample_sys four_bytes) "movies" 8 [] =
    ([EvOpen "movies"], Raise (IsADirectoryError "Is a directory"))
  /\ FileVideoReader_init (sample_sys four_bytes) "locked.mp4" 8 [] =
       ([EvOpen "locked.mp4"], Raise (PermissionError "Permission denied"))
  /\ exists data,
       files (sample_sys four_bytes) "clip.mp4" = Some (RegularFile data true)
       /\ data <> [].
Proof.
  split; [|split].
  - exact (proj1 (file_constructor_outcome (sample_sys four_bytes) "movies" 8 [])).
  - exact (proj1 (file_constructor_outcome (sample_sys four_bytes)
                    "locked.mp4" 8 [])).
  - destruct (proj2 (file_constructor_outcome (sample_sys four_bytes)
                       "clip.mp4" 8 [])
                [EvOpen "clip.mp4"] (self (file_session four_bytes 8)) eq_refl)
      as (data & Hfile & Hne & _).
    exists data. split; assumption.
Defined.

(** X15.  [RemoteFileReader(loc, cap)] on a location that starts with
    [http] or [ftp] makes one request, with [FAKE_HEADERS].  An exception of
    the request is raised as it is; a status other than 200 raises
    [Exception] with the status code in its message; status 200 gives a
    reader over the body of the response, with an empty buffer, the pointer
    at -1 and [total_bytes = -1]. *)
Theorem remote_constructor_outcome (net : network) (loc : string) (cap : Z)
    (log : list event) :
  startswith loc "http" = true \/ startswith loc "ftp" = true ->
  RemoteFileReader_init net loc cap log =
    (log ++ [EvOpen loc],
     match net loc FAKE_HEADERS with
     | Raise e => Raise e
     | Ok resp =>
         if status_code resp =? 200 then
           Ok (mkReader loc cap (mkRemote resp (body resp) (body_end resp)) (-1)
                        (Some []) (-1))
         else
           Raise (Exception
                    ("Can not open the remote video, _response status code: "
                     ++ str_of_int (status_code resp))%string)
     end).
Proof.
  intros Hscheme. unfold RemoteFileReader_init.
  assert (Hgo : negb (startswith loc "http") && negb (startswith loc "ftp") = false).
  { destruct Hscheme as [-> | ->]; [reflexivity|].
    destruct (startswith loc "http"); reflexivity. }
  rewrite Hgo. unfold VideoReader_init, bind, emit, modify, lift_result, ret.
  cbn [_open_stream _init_total_bytes RemoteFileReader_hooks].
  unfold Remote_open_stream. destruct (net loc FAKE_HEADERS) as [resp|e];
    [|reflexivity].
  destruct (status_code resp =? 200); reflexivity.
Qed.

Lemma remote_constructor_outcome_witness :
  RemoteFileReader_init
    (fun _ _ => Ok (mkResponse 404 [] [] None)) "http://host/none.mp4" 8 [] =
    ([] ++ [EvOpen "http://host/none.mp4"],
     Raise (Exception
              "Can not open the remote video, _response status code: 404")).
Proof.
  apply (remote_constructor_outcome
           (fun _ _ => Ok (mkResponse 404 [] [] None)) "http://host/none.mp4" 8 []).
  left. reflexivity.
Defined.

(** ** Errors and edge cases of the reads *)

(** X16.  A [read] that raises moves nothing: buffer and pointer are as
    before the call. *)
Theorem failed_read_keeps_cursor {S : Type} {hooks : VideoReaderHooks S}
    (ss : session S) (n : Z) (e : exn) :
  snd (read n ss) = Raise e ->
  _buffer (self (fst (read n ss))) = _buffer (self ss)
  /\ _buffer_pointer (self (fst (read n ss))) = _buffer_pointer (self ss).
Proof.
  destruct ss as [[loc cap s tb [buf|] ptr] cs].
  - destruct (Z.lt_ge_cases n 0) as [Hn|Hn].
    { rewrite read_negative by assumption. intros _. split; reflexivity. }
    destruct (Z.lt_ge_cases cap (len buf)) as [Hfull|Hfull].
    { rewrite read_overflowed by assumption. intros _. split; reflexivity. }
    destruct (Z.eq_dec (len buf) (ptr + 1)) as [Hfr|Hfr].
    { rewrite read_frontier by lia.
      destruct (stream_read (Some n) s) as [s' [data|err]];
        [discriminate|intros _; split; reflexivity]. }
    destruct (Z.le_gt_cases n (len buf - (ptr + 1))) as [Hin|Hin].
    { rewrite read_buffered by lia. discriminate. }
    rewrite read_straddling by lia. cbv zeta.
    destruct (stream_read (Some (n - (len buf - (ptr + 1)))) s)
      as [s' [data|err]]; [discriminate|intros _; split; reflexivity].
  - intros _. unfold read. destruct (n <? 0).
    + unfold call_stream_read, bind, record, emit, modify. simpl.
      destruct (stream_read None s). split; reflexivity.
    + split; reflexivity.
Qed.

Lemma failed_read_keeps_cursor_witness :
  _buffer (self (fst (read (hooks := remote_hooks four_bytes) 9
                           (fst (read (hooks := remote_hooks four_bytes) 2
                                      (remote_session four_bytes 8))))))
    = Some [Byte.x01; Byte.x02]
  /\ _buffer_pointer
       (self (fst (read (hooks := remote_hooks four_bytes) 9
                        (fst (read (hooks := remote_hooks four_bytes) 2
                                   (remote_session four_bytes 8)))))) = 1.
Proof.
  exact (failed_read_keeps_cursor (hooks := remote_hooks four_bytes)
           (fst (read (hooks := remote_hooks four_bytes) 2
                      (remote_session four_bytes 8)))
           9 StopIteration eq_refl).
Defined.

(** X17.  In every session a local-file reader can get to, no [read]
    raises for the end of the file: there it returns fewer bytes, or none.
    [read(n)], [n >= 0], returns whenever [n + cursor_position + 1] is a
    length the allocator gives out, and [read(n)], [n < 0], whenever what
    is left of the file is.  An exception a [read] raises is [MemoryError]
    or [OverflowError]: the file object refusing the length it was asked
    for. *)
Theorem file_reader_read_raises_only_for_size (sys : system) (loc : string)
    (cap : Z) (ss : session FileObject) (n : Z) :
  reachable (hooks := FileVideoReader_hooks sys) loc cap ss ->
  (0 <= n ->
   n + (_buffer_pointer (self ss) + 1) <= read_max (alloc_max sys) ->
   exists out, snd (read (hooks := FileVideoReader_hooks sys) n ss) = Ok out)
  /\ (n < 0 ->
      len (skipn (f_pos (stream (self ss))) (f_data (stream (self ss))))
        <= read_max (alloc_max sys) ->
      exists out, snd (read (hooks := FileVideoReader_hooks sys) n ss) = Ok out)
  /\ (forall e,
        snd (read (hooks := FileVideoReader_hooks sys) n ss) = Raise e ->
        e = MemoryError \/ exists msg, e = OverflowError msg).
Proof.
  intros Hreach.
  destruct (reachable_steady (laws := File_end sys) loc cap ss Hreach)
    as (buf & d & s0 & Hb & Hl & _ & Hp & _).
  destruct ss as [[loc' c s tb b ptr] cs].
  cbn [self _buffer _buffer_pointer stream] in *. subst b.
  destruct (file_left_inv _ _ Hl) as (Hs & _).
  destruct s as [data pos closed]. cbn [f_data f_pos] in *.
  injection Hs as ->. clear Hl.
  pose proof (len_nonneg buf) as Hbuf.
  assert (Herr : forall arg f' e,
             match arg with Some k => 0 <= k | None => True end ->
             file_read (alloc_max sys) arg (mkFile data pos false)
               = (f', Raise e) ->
             e = MemoryError \/ exists msg, e = OverflowError msg).
  { intros arg f' e Harg Hrd.
    exact (proj2 (file_read_raises (alloc_max sys) arg (mkFile data pos false)
                    f' e eq_refl Harg Hrd)). }
  destruct (Z.lt_ge_cases n 0) as [Hn|Hn].
  { rewrite read_negative by assumption. simpl stream_read. cbn [snd].
    split; [intros; lia|]. split.
    - intros _ Hfit. rewrite file_read_default.
      rewrite alloc_bytes_ok
        by (split; [apply len_nonneg|assumption]).
      eexists. reflexivity.
    - intros e.
      destruct (file_read (alloc_max sys) None (mkFile data pos false))
        as [f' r] eqn:Hrd.
      cbn [snd]. intros ->. apply (Herr None f' e I Hrd). }
  split; [|split; [intros; lia|]].
  - intros _ Hfit.
    destruct (Z.lt_ge_cases c (len buf)) as [Hfull|Hfull].
    { rewrite read_overflowed by assumption. simpl stream_read.
      rewrite file_read_open by lia. eexists. reflexivity. }
    destruct (Z.eq_dec (len buf) (ptr + 1)) as [Hfr|Hfr].
    { rewrite read_frontier by lia. simpl stream_read.
      rewrite file_read_open by lia. eexists. reflexivity. }
    destruct (Z.le_gt_cases n (len buf - (ptr + 1))) as [Hin|Hin].
    { rewrite read_buffered by lia. eexists. reflexivity. }
    rewrite read_straddling by lia. cbv zeta. simpl stream_read.
    rewrite file_read_open by lia. eexists. reflexivity.
  - intros e.
    destruct (Z.lt_ge_cases c (len buf)) as [Hfull|Hfull].
    { rewrite read_overflowed by assumption. simpl stream_read.
      destruct (file_read (alloc_max sys) (Some n) (mkFile data pos false))
        as [f' r] eqn:Hrd.
      cbn [snd]. intros ->. apply (Herr (Some n) f' e Hn Hrd). }
    destruct (Z.eq_dec (len buf) (ptr + 1)) as [Hfr|Hfr].
    { rewrite read_frontier by lia. simpl stream_read.
      destruct (file_read (alloc_max sys) (Some n) (mkFile data pos false))
        as [f' [out|err]] eqn:Hrd; cbn [snd]; [discriminate|].
      intros [= ->]. apply (Herr (Some n) f' e Hn Hrd). }
    destruct (Z.le_gt_cases n (len buf - (ptr + 1))) as [Hin|Hin].
    { rewrite read_buffered by lia. discriminate. }
    rewrite read_straddling by lia. cbv zeta. simpl stream_read.
    assert (Hk : 0 <= n - (len buf - (ptr + 1))) by lia.
    destruct (file_read (alloc_max sys) (Some (n - (len buf - (ptr + 1))))
                        (mkFile data pos false))
      as [f' [out|err]] eqn:Hrd; cbn [snd]; [discriminate|].
    intros [= ->]. apply (Herr (Some _) f' e Hk Hrd).
Qed.

Lemma file_reader_read_raises_only_for_size_witness :
  (exists out,
     snd (read (hooks := file_hooks four_bytes) 9
            (fst (read (hooks := file_hooks four_bytes) 2
                       (file_session four_bytes 8)))) = Ok out)
  /\ (snd (read (hooks := file_hooks four_bytes) (2 ^ 40)
             (fst (read (hooks := file_hooks four_bytes) 2
                        (file_session four_bytes 8)))) = Raise MemoryError
      /\ (MemoryError = MemoryError
          \/ exists msg, MemoryError = OverflowError msg)).
Proof.
  assert (Hreach : reachable (hooks := file_hooks four_bytes) "clip.mp4" 8
                     (fst (read (hooks := file_hooks four_bytes) 2
                                (file_session four_bytes 8)))).
  { apply reach_read; [|exact I].
    apply (reach_init (hooks := file_hooks four_bytes)
             (fun _ => True) "clip.mp4" 8 [] [EvOpen "clip.mp4"]).
    reflexivity. }
  split.
  - apply (proj1 (file_reader_read_raises_only_for_size
                    (sample_sys four_bytes) "clip.mp4" 8 _ 9 Hreach)).
    + lia.
    + vm_compute. discriminate.
  - split; [vm_compute; reflexivity|].
    apply (proj2 (proj2 (file_reader_read_raises_only_for_size
                           (sample_sys four_bytes) "clip.mp4" 8 _ (2 ^ 40)
                           Hreach))).
    vm_compute. reflexivity.
Defined.

(** X18.  [read_float(a, 0, byteorder)] adds no fraction: the generator is
    empty, [sum] returns the [int] 0, and the result is the integer part as
    a Python [int], not a [float]. *)
Theorem read_float_without_fraction {S : Type} {hooks : VideoReaderHooks S}
    (ss ss1 ss2 : session S) (a : Z) (byteorder : string)
    (before_data after_data : bytes) (int_part field : Z) :
  read a ss = (ss1, Ok before_data) ->
  int_from_bytes before_data byteorder = Ok int_part ->
  read 0 ss1 = (ss2, Ok after_data) ->
  int_from_bytes after_data byteorder = Ok field ->
  read_float a 0 byteorder ss = (ss2, Ok (PyInt int_part)).
Proof.
  intros Hrd1 Hint Hrd2 Hfield.
  unfold read_float, bind, lift_result. rewrite Hrd1, Hint, Hrd2, Hfield.
  change (range (0 * 8)) with (@nil Z). unfold py_sum. cbn [fold_left py_add].
  rewrite Z.add_0_r. reflexivity.
Qed.

Lemma read_float_without_fraction_witness :
  read_float (hooks := file_hooks four_bytes) 2 0 "big"
             (file_session four_bytes 8)
  = (fst (read (hooks := file_hooks four_bytes) 0
            (fst (read (hooks := file_hooks four_bytes) 2
                       (file_session four_bytes 8)))),
     Ok (PyInt 258)).
Proof.
  apply (read_float_without_fraction (hooks := file_hooks four_bytes)
           (file_session four_bytes 8)
           (fst (read (hooks := file_hooks four_bytes) 2
                      (file_session four_bytes 8)))
           _ 2 "big" [Byte.x01; Byte.x02] [] 258 0); reflexivity.
Defined.

(** ** Where the cursor invariant holds *)

(** X19.  In every session a remote reader can get to by construction,
    [read] and [refresh], [0 <= cursor_position + 1 <= len(buffer)] holds. *)
Theorem remote_reader_cursor_invariant (net : network) (loc : string) (cap : Z)
    (ss : session RemoteFileStreamAdapter) :
  reachable (hooks := RemoteFileReader_hooks net) loc cap ss -> cursor_inv ss.
Proof.
  induction 1 as [log log' rd Hinit|ss n _ IH _|ss _ IH].
  - eapply cursor_inv_init; eassumption.
  - apply cursor_inv_read; [apply Remote_exact_or_fail|assumption].
  - apply cursor_inv_refresh; assumption.
Qed.

Lemma remote_reader_cursor_invariant_witness :
  cursor_inv
    (fst (read (hooks := remote_hooks four_bytes) 3
       (fst (refresh (hooks := remote_hooks four_bytes)
          (fst (read (hooks := remote_hooks four_bytes) 1
             (fst (read (hooks := remote_hooks four_bytes) 2
                        (remote_session four_bytes 8))))))))).
Proof.
  apply (remote_reader_cursor_invariant
           (sample_net (sample_response four_bytes)) "http://host/clip.mp4" 8).
  apply reach_read; [|exact I]. apply reach_refresh.
  apply reach_read; [|exact I]. apply reach_read; [|exact I].
  apply (reach_init (hooks := remote_hooks four_bytes)
           (fun _ => True) "http://host/clip.mp4" 8 []
           [EvOpen "http://host/clip.mp4"]).
  reflexivity.
Defined.

(** X20.  In every session a local-file reader can get to, the reader and
    its file are open, [cursor_position + 1 >= 0], and the pointer is
    inside the buffer unless the file has been read to its end: only a
    short read at the end of the file takes the pointer past the buffer. *)
Theorem file_reader_cursor_or_eof (sys : system) (loc : string) (cap : Z)
    (ss : session FileObject) :
  reachable (hooks := FileVideoReader_hooks sys) loc cap ss ->
  exists buf,
    _buffer (self ss) = Some buf
    /\ f_closed (stream (self ss)) = false
    /\ 0 <= _buffer_pointer (self ss) + 1
    /\ (_buffer_pointer (self ss) + 1 <= len buf
        \/ skipn (f_pos (stream (self ss))) (f_data (stream (self ss))) = []).
Proof.
  intros Hreach.
  destruct (reachable_steady (laws := File_end sys) loc cap ss Hreach)
    as (buf & d & s0 & Hb & Hr & _ & Hp & Hq).
  exists buf. unfold file_left in Hr.
  destruct (f_closed (stream (self ss))); [discriminate|].
  injection Hr as <-. repeat split; try assumption.
  destruct Hq as [Hq|(_ & Hq & _)]; [left|right]; assumption.
Qed.

Lemma file_reader_cursor_or_eof_witness :
  exists buf,
    _buffer (self (fst (read (hooks := file_hooks four_bytes) 9
                             (file_session four_bytes 8)))) = Some buf
    /\ 0 <= _buffer_pointer
              (self (fst (read (hooks := file_hooks four_bytes) 9
                               (file_session four_bytes 8)))) + 1.
Proof.
  destruct (file_reader_cursor_or_eof (sample_sys four_bytes) "clip.mp4" 8
              (fst (read (hooks := file_hooks four_bytes) 9
                         (file_session four_bytes 8))))
    as (buf & Hb & _ & Hp & _).
  - apply reach_read; [|exact I].
    apply (reach_init (hooks := file_hooks four_bytes)
             (fun _ => True) "clip.mp4" 8 [] [EvOpen "clip.mp4"]).
    reflexivity.
  - exists buf. split; assumption.
Defined.
